(** * ai4se-2024-setup: the notebook's data shaping and the launch script

    A shallow embedding of
    - [examples/ai4se-fine-tuning.ipynb]: the cells [tokenize], [block], the
      train/test split and the batched mapping of [block];
    - [run.sh]: the argument handling and the derived environment variables.

    Python integers are unbounded and are modelled by [Z]; a Python list is
    a [list]; an exception is a constructor of [Py.exn] carried by
    [Py.result].  The tokenizer is an object of the [transformers] library:
    only its [encode] method and its [eos_token_id] attribute are used, and
    they are the two fields of [tokenizer]. *)

From Stdlib Require Import ZArith List Lia Bool Permutation.
From Stdlib Require Ascii String.
Import String.StringSyntax.
Delimit Scope string_scope with string.
From Stdlib Require Decimal DecimalString DecimalN DecimalFacts.
Import ListNotations.

Local Open Scope Z_scope.

(** ** Python built-ins used by the notebook *)

Module Py.

Inductive exn : Type :=
| ZeroDivisionError
| ValueError
| IndexError
| AssertionError.

Inductive result (A : Type) : Type :=
| Ok (a : A)
| Raise (e : exn).
Arguments Ok {A} a.
Arguments Raise {A} e.

Definition bind {A B : Type} (c : result A) (k : A -> result B) : result B :=
  match c with
  | Ok a => k a
  | Raise e => Raise e
  end.

(** [assert cond] *)
Definition assert (cond : bool) : result unit :=
  if cond then Ok tt else Raise AssertionError.

(** [len(l)] *)
Definition len {A : Type} (l : list A) : Z := Z.of_nat (List.length l).

(** [sum(ls, start)] on lists: [start + ls[0] + ls[1] + ...], folded from
    the left as the built-in does. *)
Definition sum {A : Type} (ls : list (list A)) (start : list A) : list A :=
  fold_left (fun acc l => acc ++ l) ls start.

(** [a // b] and [a % b] on integers: floor division, the remainder takes
    the sign of the divisor; both raise on a zero divisor. *)
Definition floordiv (a b : Z) : result Z :=
  if b =? 0 then Raise ZeroDivisionError else Ok (a / b).

Definition mod_ (a b : Z) : result Z :=
  if b =? 0 then Raise ZeroDivisionError else Ok (a mod b).

(** [range(start, stop, step)] as the list of its values. *)
Definition range_length (start stop step : Z) : Z :=
  if 0 <? step then
    if start <? stop then (stop - start - 1) / step + 1 else 0
  else
    if stop <? start then (start - stop - 1) / (- step) + 1 else 0.

Definition range (start stop step : Z) : result (list Z) :=
  if step =? 0 then Raise ValueError
  else Ok (map (fun k => start + Z.of_nat k * step)
               (seq 0 (Z.to_nat (range_length start stop step)))).

(** Slice bounds: a negative bound counts from the end, and the result is
    clipped to [0 .. len]. *)
Definition adjust_index (n i : Z) : Z :=
  if i <? 0 then Z.max (i + n) 0 else Z.min i n.

(** [l[lo:hi]] *)
Definition slice {A : Type} (l : list A) (lo hi : Z) : list A :=
  let lo' := adjust_index (len l) lo in
  let hi' := adjust_index (len l) hi in
  firstn (Z.to_nat (hi' - lo')) (skipn (Z.to_nat lo') l).

(** [l[lo:]] *)
Definition slice_from {A : Type} (l : list A) (lo : Z) : list A :=
  skipn (Z.to_nat (adjust_index (len l) lo)) l.

(** [l * n]: [n] copies of [l] in a row, none when [n <= 0]. *)
Definition mul {A : Type} (l : list A) (n : Z) : list A :=
  concat (repeat l (Z.to_nat n)).

(** [l.copy()]: a new list holding the same elements. *)
Fixpoint copy {A : Type} (l : list A) : list A :=
  match l with
  | [] => []
  | x :: t => x :: copy t
  end.

End Py.

Import Py.

Declare Scope py_scope.
Delimit Scope py_scope with py.
Notation "x <- c ;; k" := (Py.bind c (fun x => k))
  (at level 61, c at next level, right associativity) : py_scope.
Notation "c ;; k" := (Py.bind c (fun _ => k))
  (at level 61, right associativity) : py_scope.
Local Open Scope py_scope.

(** ** The notebook *)

(** The part of the tokenizer object the notebook's data shaping uses. *)
Record tokenizer : Type := {
  encode : String.string -> list Z;
  eos_token_id : Z
}.

(** A row of a dataset with the columns [input_ids] and [labels]: the
    dictionary [tokenize] returns, and a row of a blocked dataset. *)
Record row : Type := {
  row_input_ids : list Z;
  row_labels : list Z
}.

(** A batch in column form, as [Dataset.map(..., batched=True)] hands it
    to [block] and as [block] returns it: one list per column. *)
Record batch : Type := {
  input_ids : list (list Z);
  labels : list (list Z)
}.

Definition default_block_size : Z := 128.

Section Notebook.

Variable tok : tokenizer.

(** [def tokenize(dataset_row)], given the row's ['source']. *)
Definition tokenize (source : String.string) : row :=
  let input_ids := encode tok source ++ [eos_token_id tok] in
  let labels := copy input_ids in
  {| row_input_ids := input_ids; row_labels := labels |}.

(** [def block(data, block_size=128)] *)
Definition block (data : batch) (block_size : Z) : result batch :=
  let concatenated := sum (input_ids data) [] in
  let length := len concatenated in
  q <- floordiv length block_size ;;
  let truncated_length := q * block_size in
  offsets <- range 0 truncated_length block_size ;;
  let blocked_ids :=
    map (fun i => slice concatenated i (i + block_size)) offsets in
  r <- mod_ length block_size ;;
  let pad_length := block_size - r in
  let blocked_ids :=
    if negb (pad_length =? block_size) then
      blocked_ids
        ++ [slice_from concatenated truncated_length
              ++ mul [eos_token_id tok] pad_length]
    else blocked_ids in
  assert (0 <? len blocked_ids) ;;
  Ok {| input_ids := blocked_ids; labels := copy blocked_ids |}.

(** *** The dataset pipeline around [tokenize] and [block]

    [Dataset.map] and [Dataset.train_test_split] are methods of the
    [datasets] library.  What the notebook relies on is written out here:
    the row-wise map, the batched map with the library's default batch of
    1000 rows, and the split that cuts one permutation of the row indices
    into a test part and a train part, with the two ways in which the
    split refuses its input. *)

Definition columns_of (rows : list row) : batch :=
  {| input_ids := map row_input_ids rows; labels := map row_labels rows |}.

Definition rows_of (b : batch) : list row :=
  map (fun p => {| row_input_ids := fst p; row_labels := snd p |})
      (combine (input_ids b) (labels b)).

(** [data.map(tokenize, remove_columns=['source'])] *)
Definition tokenized_data (functions : list String.string) : list row :=
  map tokenize functions.

Definition default_batch_size : nat := 1000.

Fixpoint batches {A : Type} (fuel : nat) (size : nat) (rows : list A)
  : list (list A) :=
  match fuel, rows with
  | O, _ | _, [] => []
  | S fuel', _ => firstn size rows :: batches fuel' size (skipn size rows)
  end.

Fixpoint block_each (bs : list (list row)) : result (list row) :=
  match bs with
  | [] => Ok []
  | b :: rest =>
      out <- block (columns_of b) default_block_size ;;
      outs <- block_each rest ;;
      Ok (rows_of out ++ outs)
  end.

(** [rows.map(block, batched=True)] *)
Definition map_block_batched (rows : list row) : result (list row) :=
  block_each (batches (List.length rows) default_batch_size rows).

Section Split.

(** [shuffle n] is the permutation of [range(n)] the generator seeded
    with 421337 draws, and [n_test n] the number of test rows the
    library computes from [test_size = 0.1] in floating point, at most
    [n]; neither is computed here. *)
Variable shuffle : nat -> list nat.
Variable n_test : nat -> nat.

(** The rows at the given positions, in the order of the positions. *)
Definition select {A : Type} (rows : list A) (indices : list nat) : list A :=
  flat_map (fun i => match nth_error rows i with
                     | Some r => [r]
                     | None => []
                     end) indices.

Definition test_indices (n_samples : nat) : list nat :=
  firstn (n_test n_samples) (shuffle n_samples).

Definition train_indices (n_samples : nat) : list nat :=
  let n_train := (n_samples - n_test n_samples)%nat in
  firstn n_train (skipn (n_test n_samples) (shuffle n_samples)).

(** [Dataset.select] raises [IndexError] on a position outside the
    dataset. *)
Definition in_range (n_samples : nat) (indices : list nat) : bool :=
  forallb (fun i => (i <? n_samples)%nat) indices.

(** [tokenized_data.train_test_split(test_size=0.1, shuffle=True,
    seed=421337)], as the pair (['test'], ['train']).  An empty dataset is
    returned as both parts; [ValueError] is raised when the train part
    would be empty; otherwise the two parts are selected by the two slices
    of the permutation. *)
Definition train_test_split {A : Type} (rows : list A)
  : result (list A * list A) :=
  let n_samples := List.length rows in
  if (n_samples =? 0)%nat then Ok (rows, rows)
  else
    let n_train := (n_samples - n_test n_samples)%nat in
    if (n_train =? 0)%nat then Raise ValueError
    else if in_range n_samples (train_indices n_samples)
            && in_range n_samples (test_indices n_samples)
    then Ok (select rows (test_indices n_samples),
             select rows (train_indices n_samples))
    else Raise IndexError.

Definition split_dataset (functions : list String.string)
  : result (list row * list row) :=
  train_test_split (tokenized_data functions).

(** [test_data = split_dataset['test']] and
    [test_data_blocks = test_data.map(block, batched=True)]; the same for
    the train part. *)
Definition test_data_blocks (functions : list String.string)
  : result (list row) :=
  parts <- split_dataset functions ;;
  map_block_batched (fst parts).

Definition train_data_blocks (functions : list String.string)
  : result (list row) :=
  parts <- split_dataset functions ;;
  map_block_batched (snd parts).

End Split.

End Notebook.

(** ** The launch script [run.sh] *)

Module Launch.

Import String.
Local Open Scope string_scope.

(** The variables the script exports.  [AI_GPU] and [AI_PORT] hold the
    result of an arithmetic expansion; they are kept as numbers. *)
Record env : Type := {
  AI_GROUP : string;
  AI_LOGIN : string;
  AI_GPU : Z;
  AI_PORT : Z;
  AI_CONTAINER_NAME : string;
  AI_CACHE_DIR : string
}.

(** Shell arithmetic is done on 64-bit signed integers. *)
Definition int64 (z : Z) : Z := (z + 2 ^ 63) mod 2 ^ 64 - 2 ^ 63.

(** The value of a variable used inside [$(( ))] when its text is a
    decimal constant: digits only, and no leading zero (which would
    select base 8).  The shell evaluates any other text as an arithmetic
    expression of its own, which may read and assign variables (octal and
    hexadecimal constants, names, operators, assignments such as
    [AI_LOGIN=7], the empty word); that evaluation is not modelled, and
    [constant] is [None] there. *)
Definition constant (word : string) : option Z :=
  match DecimalString.NilEmpty.uint_of_string word with
  | Some d =>
      if Decimal.uint_beq (Decimal.unorm d) d
      then Some (int64 (Z.of_N (N.of_uint d)))
      else None
  | None => None
  end.

(** [$((a % b))] truncates toward zero; [$((a + b))] wraps. *)
Definition arith_rem (a b : Z) : Z := int64 (Z.rem a b).
Definition arith_add (a b : Z) : Z := int64 (a + b).

(** [$n] for [n >= 1]: the empty word when there is no such argument. *)
Definition positional (args : list string) (n : nat) : string :=
  nth (n - 1) args "".

(** The script up to its last [export].  The result is [None] when the
    text of [AI_GROUP] is not a decimal constant: the two arithmetic
    expansions then evaluate that text as an expression, with effects on
    the variables that this model does not follow. *)
Definition run (args : list string) : option env :=
  let group := "1" in
  let login := "set_notebook_password" in
  let group :=
    if (List.length args =? 1)%nat then positional args 1 else group in
  let '(group, login) :=
    if (List.length args =? 2)%nat
    then (positional args 1, positional args 2)
    else (group, login) in
  match constant group with
  | Some g =>
      Some {| AI_GROUP := group;
              AI_LOGIN := login;
              AI_GPU := arith_rem g 4;
              AI_PORT := arith_add 8000 g;
              AI_CONTAINER_NAME := "ai4se-" ++ group;
              AI_CACHE_DIR := "/var/opt/huggingface" |}
  | None => None
  end.

(** The decimal text of a group number. *)
Definition decimal (g : N) : string :=
  DecimalString.NilEmpty.string_of_uint (N.to_uint g).

End Launch.

(** ** The layout of the packed blocks, on the concatenated stream

    [concatenated] and [total_length] are the first two local variables of
    [block].  [full_blocks] and [trailing] describe the slices the
    specification names: the windows of [block_size] tokens at the offsets
    [0], [block_size], [2 * block_size], ... below the truncated length,
    and the tokens left after them. *)

Definition concatenated (data : batch) : list Z := Py.sum (input_ids data) [].

Definition total_length (data : batch) : Z := len (concatenated data).

Definition full_blocks (c : list Z) (block_size : Z) : list (list Z) :=
  map (fun k => firstn (Z.to_nat block_size) (skipn (k * Z.to_nat block_size) c))
      (seq 0 (Z.to_nat (len c / block_size))).

Definition trailing (c : list Z) (block_size : Z) : list Z :=
  skipn (Z.to_nat (len c / block_size * block_size)) c.

Definition padded_blocks (eos : Z) (c : list Z) (block_size : Z) : list (list Z) :=
  full_blocks c block_size
    ++ (if len c mod block_size =? 0 then []
        else [trailing c block_size
                ++ repeat eos (Z.to_nat (block_size - len c mod block_size))]).

(** The batch [block] is expected to return: the padded blocks in both
    columns. *)
Definition packed (tok : tokenizer) (data : batch) (block_size : Z) : batch :=
  let ids := padded_blocks (eos_token_id tok) (concatenated data) block_size in
  {| input_ids := ids; labels := ids |}.

(** Two collections of blocks share no block. *)
Definition no_common_block (a b : list row) : Prop :=
  forall blk, In blk a -> ~ In blk b.

(** A row of a blocked dataset as the training loop expects it: a block of
    the default size whose labels are its tokens. *)
Definition well_formed_block (r : row) : Prop :=
  len (row_input_ids r) = default_block_size
  /\ row_labels r = row_input_ids r.

(** A tokenizer small enough to run the examples below: every source text
    is encoded as the single id 7, and the end-of-sequence id is 0. *)
Definition toy : tokenizer := {| encode := fun _ => [7]; eos_token_id := 0 |}.

(** * Properties *)

(** ** Runs of [block] on the two examples of the specification *)

Example block_spec_example_1 :
  block toy {| input_ids := [[1;2;3];[4;5]]; labels := [] |} 2
  = Ok {| input_ids := [[1;2];[3;4];[5;0]]; labels := [[1;2];[3;4];[5;0]] |}.
Proof. reflexivity. Qed.

Example block_spec_example_2 :
  block toy {| input_ids := [[1;2;3;4]]; labels := [] |} 2
  = Ok {| input_ids := [[1;2];[3;4]]; labels := [[1;2];[3;4]] |}.
Proof. reflexivity. Qed.


(** ** Facts about the Python built-ins *)

Lemma sum_app {A : Type} (ls : list (list A)) (start : list A) :
  Py.sum ls start = start ++ concat ls.
Proof.
  unfold Py.sum. revert start.
  induction ls as [|l ls IH]; intros start; simpl.
  - now rewrite app_nil_r.
  - now rewrite IH, app_assoc.
Qed.

Lemma concatenated_concat (data : batch) :
  concatenated data = concat (input_ids data).
Proof. unfold concatenated. now rewrite sum_app. Qed.

Lemma copy_id {A : Type} (l : list A) : copy l = l.
Proof. induction l as [|x l IH]; simpl; congruence. Qed.

Lemma mul_singleton {A : Type} (x : A) (n : Z) :
  mul [x] n = repeat x (Z.to_nat n).
Proof.
  unfold mul. induction (Z.to_nat n) as [|m IH]; simpl; congruence.
Qed.

Lemma len_nonneg {A : Type} (l : list A) : 0 <= len l.
Proof. unfold len. lia. Qed.

Lemma len_app {A : Type} (l1 l2 : list A) : len (l1 ++ l2) = len l1 + len l2.
Proof. unfold len. rewrite length_app. lia. Qed.

Lemma range_length_multiple (q step : Z) :
  0 < step -> 0 <= q -> range_length 0 (q * step) step = q.
Proof.
  intros Hs Hq. unfold range_length.
  destruct (Z.ltb_spec 0 step); [|lia].
  destruct (Z.ltb_spec 0 (q * step)) as [Hpos|Hnpos].
  - replace (q * step - 0 - 1) with ((q - 1) * step + (step - 1)) by lia.
    rewrite Z.div_add_l by lia.
    rewrite Z.div_small by lia. lia.
  - nia.
Qed.

Lemma range_multiple (q step : Z) :
  0 < step -> 0 <= q ->
  range 0 (q * step) step
  = Ok (map (fun k => Z.of_nat k * step) (seq 0 (Z.to_nat q))).
Proof.
  intros Hs Hq. unfold range.
  destruct (Z.eqb_spec step 0); [lia|].
  now rewrite range_length_multiple.
Qed.

Lemma slice_inside {A : Type} (l : list A) (lo n : Z) :
  0 <= lo -> 0 <= n -> lo + n <= len l ->
  slice l lo (lo + n) = firstn (Z.to_nat n) (skipn (Z.to_nat lo) l).
Proof.
  intros Hlo Hn Hle. unfold slice, adjust_index.
  destruct (Z.ltb_spec lo 0); [lia|].
  destruct (Z.ltb_spec (lo + n) 0); [lia|].
  rewrite !Z.min_l by lia.
  now replace (lo + n - lo) with n by lia.
Qed.

Lemma slice_from_inside {A : Type} (l : list A) (lo : Z) :
  0 <= lo <= len l -> slice_from l lo = skipn (Z.to_nat lo) l.
Proof.
  intros H. unfold slice_from, adjust_index.
  destruct (Z.ltb_spec lo 0); [lia|].
  now rewrite Z.min_l by lia.
Qed.

(** ** What [block] computes for a positive block size *)

Section BlockFacts.

Variable tok : tokenizer.

Lemma truncated_le (c : list Z) (bs : Z) :
  0 < bs -> 0 <= len c / bs /\ len c / bs * bs <= len c.
Proof.
  intros Hbs. pose proof (len_nonneg c) as Hc. split.
  - apply Z.div_pos; lia.
  - rewrite Z.mul_comm. apply Z.mul_div_le. lia.
Qed.

Lemma slices_are_full_blocks (c : list Z) (bs : Z) :
  0 < bs ->
  map (fun i => slice c i (i + bs))
      (map (fun k => Z.of_nat k * bs) (seq 0 (Z.to_nat (len c / bs))))
  = full_blocks c bs.
Proof.
  intros Hbs. destruct (truncated_le c bs Hbs) as [Hq Ht].
  unfold full_blocks. rewrite map_map.
  apply map_ext_in. intros k Hk. apply in_seq in Hk.
  assert (Hk' : Z.of_nat k + 1 <= len c / bs) by lia.
  rewrite slice_inside by nia.
  f_equal. f_equal. rewrite Z2Nat.inj_mul by lia.
  now rewrite Nat2Z.id.
Qed.

Lemma block_positive (data : batch) (bs : Z) :
  0 < bs ->
  block tok data bs
  = let ids := padded_blocks (eos_token_id tok) (concatenated data) bs in
    if 0 <? len ids then Ok {| input_ids := ids; labels := ids |}
    else Raise AssertionError.
Proof.
  intros Hbs. unfold block. fold (concatenated data).
  set (c := concatenated data).
  destruct (truncated_le c bs Hbs) as [Hq Ht].
  unfold floordiv, mod_.
  destruct (Z.eqb_spec bs 0) as [|_]; [lia|]. simpl Py.bind.
  rewrite range_multiple by assumption. simpl Py.bind.
  rewrite slices_are_full_blocks by assumption.
  rewrite slice_from_inside by lia.
  rewrite mul_singleton, copy_id.
  fold (trailing c bs). unfold padded_blocks.
  destruct (Z.eqb_spec (bs - len c mod bs) bs) as [Heq|Hne];
    destruct (Z.eqb_spec (len c mod bs) 0) as [Hr|Hr]; try lia; simpl negb; cbv iota.
  - rewrite app_nil_r. unfold assert.
    destruct (0 <? len (full_blocks c bs)); reflexivity.
  - unfold assert.
    destruct (0 <? len _); reflexivity.
Qed.

End BlockFacts.

(** ** The shape of [padded_blocks] *)

Section Layout.

Variables (eos : Z) (c : list Z) (bs : Z).
Hypothesis bs_pos : 0 < bs.

Lemma div_mod_len : len c = len c / bs * bs + len c mod bs.
Proof. rewrite Z.mul_comm. apply Z.div_mod. lia. Qed.

Lemma mod_len_bounds : 0 <= len c mod bs < bs.
Proof. apply Z.mod_pos_bound. exact bs_pos. Qed.

Lemma len_full_blocks : len (full_blocks c bs) = len c / bs.
Proof.
  unfold full_blocks, len at 1. rewrite length_map, length_seq.
  destruct (truncated_le c bs bs_pos). lia.
Qed.

Lemma full_blocks_uniform :
  Forall (fun b => len b = bs) (full_blocks c bs).
Proof.
  destruct (truncated_le c bs bs_pos) as [Hq Ht].
  unfold full_blocks. apply Forall_forall. intros b Hb.
  apply in_map_iff in Hb. destruct Hb as [k [<- Hk]].
  apply in_seq in Hk. unfold len in *.
  rewrite length_firstn, length_skipn. nia.
Qed.

Lemma len_trailing : len (trailing c bs) = len c mod bs.
Proof.
  destruct (truncated_le c bs bs_pos) as [Hq Ht].
  pose proof div_mod_len as Hdm.
  unfold trailing, len at 1. rewrite length_skipn.
  unfold len in *. lia.
Qed.

Lemma firstn_plus {A : Type} (a b : nat) (l : list A) :
  firstn (a + b) l = firstn a l ++ firstn b (skipn a l).
Proof.
  revert l. induction a as [|a IH]; intros l; simpl.
  - reflexivity.
  - destruct l as [|x l]; simpl.
    + now rewrite firstn_nil.
    + now rewrite IH.
Qed.

Lemma concat_windows (b m : nat) :
  concat (map (fun k => firstn b (skipn (k * b) c)) (seq 0 m))
  = firstn (m * b) c.
Proof.
  induction m as [|m IH].
  - reflexivity.
  - rewrite seq_S, map_app, concat_app, IH. simpl.
    rewrite app_nil_r. replace (b + m * b)%nat with (m * b + b)%nat by lia.
    now rewrite firstn_plus.
Qed.

Lemma concat_full_blocks :
  concat (full_blocks c bs) = firstn (Z.to_nat (len c / bs * bs)) c.
Proof.
  destruct (truncated_le c bs bs_pos) as [Hq Ht].
  unfold full_blocks. rewrite concat_windows.
  now rewrite Z2Nat.inj_mul by lia.
Qed.

Lemma full_blocks_trailing : concat (full_blocks c bs) ++ trailing c bs = c.
Proof. rewrite concat_full_blocks. unfold trailing. apply firstn_skipn. Qed.

(** Joined back together, the blocks are the stream followed by the pad
    tokens, of which there are none when the length is a multiple of the
    block size. *)
Lemma concat_padded_blocks :
  concat (padded_blocks eos c bs)
  = c ++ (if len c mod bs =? 0 then []
          else repeat eos (Z.to_nat (bs - len c mod bs))).
Proof.
  unfold padded_blocks. rewrite concat_app.
  destruct (Z.eqb_spec (len c mod bs) 0) as [Hr|Hr]; simpl.
  - rewrite !app_nil_r. rewrite <- full_blocks_trailing at 2.
    assert (Ht : trailing c bs = []).
    { apply length_zero_iff_nil. pose proof len_trailing as H.
      rewrite Hr in H. unfold len in H. lia. }
    now rewrite Ht, app_nil_r.
  - rewrite app_nil_r, app_assoc. now rewrite full_blocks_trailing.
Qed.

Lemma padded_blocks_uniform :
  Forall (fun b => len b = bs) (padded_blocks eos c bs).
Proof.
  unfold padded_blocks. apply Forall_app. split.
  - apply full_blocks_uniform.
  - destruct (Z.eqb_spec (len c mod bs) 0) as [Hr|Hr]; constructor; [|constructor].
    rewrite len_app, len_trailing. unfold len at 2. rewrite repeat_length.
    pose proof mod_len_bounds. lia.
Qed.

Lemma len_padded_blocks :
  len (padded_blocks eos c bs)
  = len c / bs + (if len c mod bs =? 0 then 0 else 1).
Proof.
  unfold padded_blocks. rewrite len_app, len_full_blocks.
  destruct (len c mod bs =? 0); reflexivity.
Qed.

Lemma padded_blocks_nonempty : (0 <? len (padded_blocks eos c bs)) = (0 <? len c).
Proof.
  rewrite len_padded_blocks.
  destruct (truncated_le c bs bs_pos) as [Hq Ht].
  pose proof div_mod_len as Hdm. pose proof mod_len_bounds as Hb.
  set (q := len c / bs) in *. set (r := len c mod bs) in *.
  destruct (Z.eqb_spec r 0) as [Hr|Hr].
  - rewrite Z.add_0_r.
    destruct (Z.ltb_spec 0 q); destruct (Z.ltb_spec 0 (len c));
      try reflexivity; nia.
  - destruct (Z.ltb_spec 0 (q + 1)); destruct (Z.ltb_spec 0 (len c));
      try reflexivity; nia.
Qed.

End Layout.

Section BlockResults.

Variable tok : tokenizer.

(** For a positive block size [block] fails exactly on an empty stream. *)
Lemma block_total (data : batch) (bs : Z) :
  0 < bs ->
  block tok data bs
  = if 0 <? total_length data then Ok (packed tok data bs)
    else Raise AssertionError.
Proof.
  intros Hbs. rewrite block_positive by assumption. cbv zeta.
  rewrite padded_blocks_nonempty by assumption. reflexivity.
Qed.

Lemma block_ok_inv (data : batch) (bs : Z) (out : batch) :
  0 < bs -> block tok data bs = Ok out ->
  0 < total_length data /\ out = packed tok data bs.
Proof.
  intros Hbs H. rewrite block_total in H by assumption.
  destruct (Z.ltb_spec 0 (total_length data)); [|discriminate].
  split; [assumption|congruence].
Qed.

End BlockResults.

(** ** [block] outside the positive block sizes *)

Lemma block_zero_size (tok : tokenizer) (data : batch) :
  block tok data 0 = Raise ZeroDivisionError.
Proof. reflexivity. Qed.

Lemma block_negative_multiple (tok : tokenizer) (data : batch) (bs : Z) :
  bs < 0 -> (bs | total_length data) ->
  block tok data bs = Raise AssertionError.
Proof.
  intros Hbs [k Hk]. unfold block. fold (concatenated data).
  fold (total_length data). pose proof (len_nonneg (concatenated data)) as Hc.
  fold (total_length data) in Hc.
  unfold floordiv, mod_. destruct (Z.eqb_spec bs 0) as [|_]; [lia|].
  simpl Py.bind. rewrite Hk, Z.div_mul, Z.mod_mul by lia.
  unfold range. destruct (Z.eqb_spec bs 0) as [|_]; [lia|].
  unfold range_length.
  destruct (Z.ltb_spec 0 bs); [lia|].
  destruct (Z.ltb_spec (k * bs) 0); [lia|].
  simpl Py.bind. rewrite Z.sub_0_r, Z.eqb_refl. reflexivity.
Qed.

(** A negative block size that does not divide the length is not rejected:
    the loop is empty and the "padded" block is the empty list. *)
Example block_negative_size :
  block toy {| input_ids := [[1;2;3;4;5]]; labels := [] |} (-2)
  = Ok {| input_ids := [[]]; labels := [[]] |}.
Proof. reflexivity. Qed.

(** ** The claims about [block] and [tokenize] *)

(** C1: for a non-empty collection of token sequences and a positive
    [block_size], every block that [block] emits, the padded last one
    included, has exactly [block_size] tokens (and so has every entry of
    the [labels] column). *)
Theorem block_emits_uniform_blocks
  (tok : tokenizer) (data : batch) (bs : Z) (out : batch) :
  input_ids data <> [] -> 0 < bs -> block tok data bs = Ok out ->
  Forall (fun b => len b = bs) (input_ids out)
  /\ Forall (fun b => len b = bs) (labels out).
Proof.
  intros _ Hbs Hrun.
  destruct (block_ok_inv tok data bs out Hbs Hrun) as [_ ->].
  split; apply padded_blocks_uniform; assumption.
Qed.

Lemma block_emits_uniform_blocks_witness :
  Forall (fun b => len b = 2) [[1;2];[3;4];[5;0]]
  /\ Forall (fun b => len b = 2) [[1;2];[3;4];[5;0]].
Proof.
  apply (block_emits_uniform_blocks toy
           {| input_ids := [[1;2;3];[4;5]]; labels := [[1;2;3];[4;5]] |} 2
           {| input_ids := [[1;2];[3;4];[5;0]];
              labels := [[1;2];[3;4];[5;0]] |}).
  - discriminate.
  - lia.
  - reflexivity.
Defined.

(** C2: when the concatenated length is 0, in particular for the empty
    collection, [block] raises (the assertion error, for every non-zero
    block size); it never returns an empty collection; and for a positive
    block size and a concatenated length above 0 it returns a non-empty
    collection of blocks of [block_size] tokens. *)
Theorem block_fails_exactly_on_empty_stream
  (tok : tokenizer) (data : batch) (bs : Z) :
  (total_length data = 0 ->
   block tok data bs
   = Raise (if bs =? 0 then ZeroDivisionError else AssertionError))
  /\ (input_ids data = [] -> total_length data = 0)
  /\ (forall out, block tok data bs = Ok out -> input_ids out <> [])
  /\ (0 < bs -> 0 < total_length data ->
      exists out, block tok data bs = Ok out
                  /\ input_ids out <> []
                  /\ Forall (fun b => len b = bs) (input_ids out)).
Proof.
  repeat split.
  - intros Hlen. destruct (Z.eqb_spec bs 0) as [->|Hne].
    + apply block_zero_size.
    + destruct (Z.lt_ge_cases bs 0) as [Hneg|Hpos].
      * apply block_negative_multiple; [assumption|].
        rewrite Hlen. apply Z.divide_0_r.
      * rewrite block_total by lia. now rewrite Hlen.
  - intros Hnil. unfold total_length, concatenated. now rewrite Hnil.
  - intros out Hrun Hempty. unfold block in Hrun.
    destruct (floordiv _ bs) as [q|]; [simpl in Hrun|discriminate].
    destruct (range 0 _ bs) as [offsets|]; [simpl in Hrun|discriminate].
    destruct (mod_ _ bs) as [r|]; [simpl in Hrun|discriminate].
    match type of Hrun with
    | context [assert (0 <? len ?ids)] =>
        generalize dependent ids; intros blocked Hrun
    end.
    destruct blocked as [|b blocked]; simpl in Hrun.
    + discriminate.
    + injection Hrun as <-. discriminate.
  - intros Hbs Hlen. exists (packed tok data bs).
    rewrite block_total by assumption.
    destruct (Z.ltb_spec 0 (total_length data)); [|lia].
    split; [reflexivity|]. split.
    + simpl. intros Hempty.
      pose proof (padded_blocks_nonempty (eos_token_id tok)
                    (concatenated data) bs Hbs) as Hne.
      rewrite Hempty in Hne. fold (total_length data) in Hne.
      destruct (Z.ltb_spec 0 (total_length data)); [discriminate|lia].
    + simpl. apply padded_blocks_uniform. assumption.
Qed.

Lemma block_fails_exactly_on_empty_stream_witness :
  block toy {| input_ids := [[]; []]; labels := [[]; []] |} 2
  = Raise AssertionError
  /\ exists out,
       block toy {| input_ids := [[1;2;3];[4;5]]; labels := [] |} 2 = Ok out
       /\ input_ids out <> []
       /\ Forall (fun b => len b = 2) (input_ids out).
Proof.
  split.
  - apply (proj1 (block_fails_exactly_on_empty_stream toy
                    {| input_ids := [[]; []]; labels := [[]; []] |} 2)).
    reflexivity.
  - apply (proj2 (proj2 (proj2 (block_fails_exactly_on_empty_stream toy
                    {| input_ids := [[1;2;3];[4;5]]; labels := [] |} 2)))).
    + lia.
    + reflexivity.
Defined.

(** C3: for a non-empty collection and a positive [block_size], the first
    [total_length] tokens of the emitted blocks joined in order are the
    input sequences joined in input order. *)
Theorem block_round_trip
  (tok : tokenizer) (data : batch) (bs : Z) (out : batch) :
  input_ids data <> [] -> 0 < bs -> block tok data bs = Ok out ->
  firstn (Z.to_nat (total_length data)) (concat (input_ids out))
  = concat (input_ids data).
Proof.
  intros _ Hbs Hrun.
  destruct (block_ok_inv tok data bs out Hbs Hrun) as [_ ->].
  simpl. rewrite concat_padded_blocks by assumption.
  unfold total_length, len. rewrite Nat2Z.id.
  rewrite firstn_app, Nat.sub_diag, firstn_all, firstn_O, app_nil_r.
  apply concatenated_concat.
Qed.

Lemma block_round_trip_witness :
  firstn (Z.to_nat 5) (concat [[1;2];[3;4];[5;0]]) = concat [[1;2;3];[4;5]].
Proof.
  apply (block_round_trip toy
           {| input_ids := [[1;2;3];[4;5]]; labels := [[1;2;3];[4;5]] |} 2
           {| input_ids := [[1;2];[3;4];[5;0]];
              labels := [[1;2];[3;4];[5;0]] |}).
  - discriminate.
  - lia.
  - reflexivity.
Defined.

(** C4: for a non-empty collection with [r = total_length mod block_size]:
    when [r > 0], [block] emits the [total_length / block_size] full blocks
    cut at the successive offsets, then exactly one more block made of the
    [r] trailing tokens followed by [block_size - r] copies of the
    end-of-sequence id; when [r = 0] it emits the full blocks and nothing
    else. *)
Theorem block_remainder_layout
  (tok : tokenizer) (data : batch) (bs : Z) :
  input_ids data <> [] -> 0 < bs ->
  let c := concatenated data in
  let r := total_length data mod bs in
  len (full_blocks c bs) = total_length data / bs
  /\ len (trailing c bs) = r
  /\ (0 < r ->
      let ids := full_blocks c bs
                   ++ [trailing c bs
                         ++ repeat (eos_token_id tok) (Z.to_nat (bs - r))] in
      block tok data bs = Ok {| input_ids := ids; labels := ids |})
  /\ (r = 0 ->
      let ids := full_blocks c bs in
      block tok data bs
      = if 0 <? total_length data
        then Ok {| input_ids := ids; labels := ids |}
        else Raise AssertionError).
Proof.
  intros _ Hbs c r.
  change (total_length data) with (len c) in *.
  pose proof (div_mod_len c bs Hbs) as Hdm.
  destruct (truncated_le c bs Hbs) as [Hq Ht].
  split; [apply len_full_blocks; assumption|].
  split; [apply len_trailing; assumption|].
  split.
  - intros Hr ids. rewrite block_total by assumption.
    change (total_length data) with (len c).
    destruct (Z.ltb_spec 0 (len c)) as [_|Hz]; [|subst r; nia].
    unfold packed, padded_blocks. fold c. fold r.
    destruct (Z.eqb_spec r 0); [lia|]. reflexivity.
  - intros Hr ids. rewrite block_total by assumption.
    unfold packed, padded_blocks. fold c. fold r.
    rewrite Hr. simpl. now rewrite app_nil_r.
Qed.

Lemma block_remainder_layout_witness :
  block toy {| input_ids := [[1;2;3];[4;5]]; labels := [] |} 2
  = Ok {| input_ids := [[1;2];[3;4];[5;0]]; labels := [[1;2];[3;4];[5;0]] |}
  /\ block toy {| input_ids := [[1;2;3;4]]; labels := [] |} 2
     = Ok {| input_ids := [[1;2];[3;4]]; labels := [[1;2];[3;4]] |}.
Proof.
  split.
  - refine (proj1 (proj2 (proj2 (block_remainder_layout toy
              {| input_ids := [[1;2;3];[4;5]]; labels := [] |} 2 _ _))) _).
    + discriminate.
    + lia.
    + reflexivity.
  - refine (proj2 (proj2 (proj2 (block_remainder_layout toy
              {| input_ids := [[1;2;3;4]]; labels := [] |} 2 _ _))) _).
    + discriminate.
    + lia.
    + reflexivity.
Defined.

(** C5: when the concatenated length is an exact multiple of [block_size],
    the output of [block] holds no padding: the emitted blocks are the full
    blocks alone, and joined in order they are the concatenated input. *)
Theorem block_multiple_has_no_padding
  (tok : tokenizer) (data : batch) (bs : Z) (out : batch) :
  (bs | total_length data) -> block tok data bs = Ok out ->
  input_ids out = full_blocks (concatenated data) bs
  /\ concat (input_ids out) = concat (input_ids data)
  /\ len (concat (input_ids out)) = total_length data.
Proof.
  intros Hdiv Hrun.
  destruct (Z.lt_trichotomy bs 0) as [Hneg|[->|Hpos]].
  - rewrite block_negative_multiple in Hrun by assumption. discriminate.
  - rewrite block_zero_size in Hrun. discriminate.
  - destruct (block_ok_inv tok data bs out Hpos Hrun) as [_ ->].
    assert (Hr : len (concatenated data) mod bs = 0).
    { apply Z.mod_divide; [lia|exact Hdiv]. }
    assert (Hids : input_ids (packed tok data bs)
                   = full_blocks (concatenated data) bs).
    { simpl. unfold padded_blocks. rewrite Hr. simpl. apply app_nil_r. }
    assert (Hcat : concat (input_ids (packed tok data bs))
                   = concatenated data).
    { simpl. rewrite concat_padded_blocks by assumption.
      rewrite Hr. simpl. apply app_nil_r. }
    split; [exact Hids|]. split.
    + rewrite Hcat. apply concatenated_concat.
    + rewrite Hcat. reflexivity.
Qed.

Lemma block_multiple_has_no_padding_witness :
  [[1;2];[3;4]] = full_blocks [1;2;3;4] 2
  /\ concat [[1;2];[3;4]] = concat [[1;2;3;4]]
  /\ len (concat [[1;2];[3;4]]) = 4.
Proof.
  apply (block_multiple_has_no_padding toy
           {| input_ids := [[1;2;3;4]]; labels := [[1;2;3;4]] |} 2
           {| input_ids := [[1;2];[3;4]]; labels := [[1;2];[3;4]] |}).
  - exists 2. reflexivity.
  - reflexivity.
Defined.

(** C6: [tokenize] returns [labels] equal to its [input_ids], and every
    batch [block] returns has a [labels] column equal to its [input_ids]
    column, block by block. *)
Theorem labels_mirror_input_ids (tok : tokenizer) :
  (forall source,
      row_labels (tokenize tok source) = row_input_ids (tokenize tok source))
  /\ (forall data bs out,
        block tok data bs = Ok out ->
        labels out = input_ids out
        /\ Forall (fun r => row_labels r = row_input_ids r) (rows_of out)).
Proof.
  split.
  - intros source. unfold tokenize. simpl. apply copy_id.
  - intros data bs out Hrun.
    assert (Heq : labels out = input_ids out).
    { unfold block in Hrun.
      destruct (floordiv _ bs) as [q|]; [simpl in Hrun|discriminate].
      destruct (range 0 _ bs) as [offsets|]; [simpl in Hrun|discriminate].
      destruct (mod_ _ bs) as [r|]; [simpl in Hrun|discriminate].
      destruct (assert _); [simpl in Hrun|discriminate].
      injection Hrun as <-. simpl. apply copy_id. }
    split; [exact Heq|].
    unfold rows_of. rewrite Heq. apply Forall_forall. intros r Hr.
    apply in_map_iff in Hr. destruct Hr as [[a b] [<- Hin]]. simpl.
    clear -Hin. induction (input_ids out) as [|x l IH]; simpl in Hin.
    + contradiction.
    + destruct Hin as [Hhd|Htl]; [congruence|auto].
Qed.

Lemma labels_mirror_input_ids_witness :
  labels {| input_ids := [[1;2];[3;4];[5;0]]; labels := [[1;2];[3;4];[5;0]] |}
  = input_ids {| input_ids := [[1;2];[3;4];[5;0]];
                 labels := [[1;2];[3;4];[5;0]] |}.
Proof.
  apply (proj2 (labels_mirror_input_ids toy)
           {| input_ids := [[1;2;3];[4;5]]; labels := [[1;2;3];[4;5]] |} 2).
  reflexivity.
Defined.

(** ** The end-of-sequence id in tokenized data *)

Lemma total_length_tokenized (tok : tokenizer) (functions : list String.string) :
  functions <> [] ->
  0 < total_length (columns_of (tokenized_data tok functions)).
Proof.
  intros Hne. unfold total_length. rewrite concatenated_concat.
  destruct functions as [|f rest]; [contradiction|].
  simpl. rewrite len_app. unfold len.
  rewrite length_app. simpl. lia.
Qed.

Lemma eos_in_tokenized (tok : tokenizer) (functions : list String.string) :
  functions <> [] ->
  In (eos_token_id tok)
     (concatenated (columns_of (tokenized_data tok functions))).
Proof.
  intros Hne. rewrite concatenated_concat.
  destruct functions as [|f rest]; [contradiction|].
  simpl. apply in_or_app. left. apply in_or_app. right. now left.
Qed.

(** C9: [tokenize] puts the tokenizer's end-of-sequence id after the encoded
    source, so every sequence handed to [block] ends with it; [block] pads
    with the same id; hence, whenever there is at least one snippet, the id
    occurs among the genuine tokens (the first [total_length] ones) of the
    emitted blocks, which are followed by copies of that id only. *)
Theorem eos_token_is_also_genuine (tok : tokenizer) :
  (forall source,
      row_input_ids (tokenize tok source)
      = encode tok source ++ [eos_token_id tok])
  /\ (forall functions,
        Forall (fun ids => exists body, ids = body ++ [eos_token_id tok])
               (input_ids (columns_of (tokenized_data tok functions))))
  /\ (forall functions bs,
        functions <> [] -> 0 < bs ->
        let data := columns_of (tokenized_data tok functions) in
        exists out pad,
          block tok data bs = Ok out
          /\ concat (input_ids out)
             = concatenated data ++ repeat (eos_token_id tok) pad
          /\ In (eos_token_id tok) (concatenated data)
          /\ In (eos_token_id tok)
                (firstn (Z.to_nat (total_length data))
                        (concat (input_ids out)))).
Proof.
  split; [reflexivity|]. split.
  - intros functions. simpl. unfold tokenized_data. rewrite map_map.
    apply Forall_forall. intros ids Hin. apply in_map_iff in Hin.
    destruct Hin as [source [<- _]]. now exists (encode tok source).
  - intros functions bs Hne Hbs data.
    pose proof (total_length_tokenized tok functions Hne) as Hlen.
    pose proof (eos_in_tokenized tok functions Hne) as Hin.
    fold data in Hlen, Hin.
    exists (packed tok data bs).
    exists (if total_length data mod bs =? 0 then O
            else Z.to_nat (bs - total_length data mod bs)).
    assert (Hcat : concat (input_ids (packed tok data bs))
                   = concatenated data
                       ++ repeat (eos_token_id tok)
                            (if total_length data mod bs =? 0 then O
                             else Z.to_nat (bs - total_length data mod bs))).
    { simpl. rewrite concat_padded_blocks by assumption.
      unfold total_length. destruct (_ =? 0); reflexivity. }
    split.
    { rewrite block_total by assumption.
      destruct (Z.ltb_spec 0 (total_length data)); [reflexivity|lia]. }
    split; [exact Hcat|]. split; [exact Hin|].
    rewrite Hcat. unfold total_length, len. rewrite Nat2Z.id.
    rewrite firstn_app, Nat.sub_diag, firstn_all, firstn_O, app_nil_r.
    exact Hin.
Qed.

Lemma eos_token_is_also_genuine_witness :
  exists out pad,
    block toy (columns_of (tokenized_data toy ["f"%string])) 3 = Ok out
    /\ concat (input_ids out) = [7; 0] ++ repeat 0 pad
    /\ In 0 [7; 0]
    /\ In 0 (firstn (Z.to_nat 2) (concat (input_ids out))).
Proof.
  apply (proj2 (proj2 (eos_token_is_also_genuine toy)) ["f"%string] 3).
  - discriminate.
  - lia.
Defined.

(** ** The train/test split *)

Lemma NoDup_app_disjoint {A : Type} (l1 l2 : list A) :
  NoDup (l1 ++ l2) -> forall a, In a l1 -> ~ In a l2.
Proof.
  induction l1 as [|x l1 IH]; simpl; intros Hnd a Hin.
  - contradiction.
  - inversion Hnd as [|y l Hx Hrest]; subst.
    destruct Hin as [->|Hin].
    + intros Hin2. apply Hx. apply in_or_app. now right.
    + now apply IH.
Qed.

Lemma select_app {A : Type} (rows : list A) (i1 i2 : list nat) :
  select rows (i1 ++ i2) = select rows i1 ++ select rows i2.
Proof. unfold select. apply flat_map_app. Qed.

Lemma select_seq_from {A : Type} (before rows : list A) :
  select (before ++ rows) (seq (List.length before) (List.length rows)) = rows.
Proof.
  revert before. induction rows as [|x rows IH]; intros before.
  - reflexivity.
  - simpl seq. unfold select. simpl flat_map.
    rewrite nth_error_app2, Nat.sub_diag by lia. simpl.
    f_equal.
    replace (before ++ x :: rows) with ((before ++ [x]) ++ rows)
      by now rewrite <- app_assoc.
    replace (S (List.length before)) with (List.length (before ++ [x]))
      by (rewrite length_app; simpl; lia).
    apply IH.
Qed.

Lemma select_all {A : Type} (rows : list A) :
  select rows (seq 0 (List.length rows)) = rows.
Proof. exact (select_seq_from [] rows). Qed.

Section SplitFacts.

Variable shuffle : nat -> list nat.
Variable n_test : nat -> nat.
Variable n : nat.
Hypothesis shuffle_permutes : Permutation (shuffle n) (seq 0 n).
Hypothesis n_test_le : (n_test n <= n)%nat.

Lemma split_indices :
  test_indices shuffle n_test n ++ train_indices shuffle n_test n
  = shuffle n.
Proof.
  unfold test_indices, train_indices.
  assert (Hlen : List.length (shuffle n) = n).
  { rewrite (Permutation_length shuffle_permutes). apply length_seq. }
  rewrite (firstn_all2 (n := (n - n_test n)%nat)).
  - apply firstn_skipn.
  - rewrite length_skipn. lia.
Qed.

End SplitFacts.

Lemma select_nil {A : Type} (indices : list nat) :
  select (@nil A) indices = [].
Proof.
  unfold select. induction indices as [|i indices IH]; simpl.
  - reflexivity.
  - destruct i; exact IH.
Qed.

Lemma in_range_below (n : nat) (indices : list nat) :
  (forall i, In i indices -> (i < n)%nat) -> in_range n indices = true.
Proof.
  intros H. unfold in_range. apply forallb_forall. intros i Hi.
  apply Nat.ltb_lt. apply H. exact Hi.
Qed.

Lemma split_indices_in_range
  (shuffle : nat -> list nat) (n_test : nat -> nat) (n : nat) :
  Permutation (shuffle n) (seq 0 n) -> (n_test n <= n)%nat ->
  in_range n (train_indices shuffle n_test n)
  && in_range n (test_indices shuffle n_test n) = true.
Proof.
  intros Hperm Hle.
  assert (Hin : forall i,
             In i (test_indices shuffle n_test n
                     ++ train_indices shuffle n_test n) -> (i < n)%nat).
  { intros i Hi. rewrite split_indices in Hi by assumption.
    apply (Permutation_in _ Hperm) in Hi. apply in_seq in Hi. lia. }
  apply andb_true_intro. split; apply in_range_below; intros i Hi; apply Hin;
    apply in_or_app; [right|left]; exact Hi.
Qed.

(** What the split returns when the shuffle is a permutation. *)
Lemma train_test_split_result
  (shuffle : nat -> list nat) (n_test : nat -> nat)
  (A : Type) (rows : list A) :
  let n := List.length rows in
  Permutation (shuffle n) (seq 0 n) -> (n_test n <= n)%nat ->
  train_test_split shuffle n_test rows
  = if (0 <? n)%nat && (n_test n =? n)%nat then Raise ValueError
    else Ok (select rows (test_indices shuffle n_test n),
             select rows (train_indices shuffle n_test n)).
Proof.
  intros n Hperm Hle. unfold train_test_split. fold n.
  destruct (Nat.eqb_spec n 0) as [Hz|Hnz].
  - destruct rows as [|r rows]; [|discriminate Hz].
    simpl. now rewrite !select_nil.
  - destruct (Nat.ltb_spec 0 n) as [_|]; [|lia]. simpl andb.
    destruct (Nat.eqb_spec (n_test n) n) as [Hall|Hsome];
      destruct (Nat.eqb_spec (n - n_test n) 0); try lia.
    + reflexivity.
    + now rewrite split_indices_in_range by assumption.
Qed.

(** C7, as the notebook has it: the splitter works on the tokenized rows,
    before any block exists.  It cuts one permutation of the row positions
    into a test part and a train part: no position is in both, and the two
    parts together hold every row exactly once.  The split returns these
    two parts, unless the dataset is not empty and the train part would
    be, in which case it raises. *)
Theorem split_partitions_rows
  (shuffle : nat -> list nat) (n_test : nat -> nat)
  (A : Type) (rows : list A) :
  let n := List.length rows in
  Permutation (shuffle n) (seq 0 n) -> (n_test n <= n)%nat ->
  NoDup (test_indices shuffle n_test n ++ train_indices shuffle n_test n)
  /\ (forall i, In i (test_indices shuffle n_test n) ->
                ~ In i (train_indices shuffle n_test n))
  /\ Permutation (select rows (test_indices shuffle n_test n)
                    ++ select rows (train_indices shuffle n_test n)) rows
  /\ train_test_split shuffle n_test rows
     = (if (0 <? n)%nat && (n_test n =? n)%nat then Raise ValueError
        else Ok (select rows (test_indices shuffle n_test n),
                 select rows (train_indices shuffle n_test n)))
  /\ (forall test train,
        train_test_split shuffle n_test rows = Ok (test, train) ->
        Permutation (test ++ train) rows).
Proof.
  intros n Hperm Hle.
  assert (Hnd : NoDup (test_indices shuffle n_test n
                         ++ train_indices shuffle n_test n)).
  { rewrite split_indices by assumption.
    apply (Permutation_NoDup (Permutation_sym Hperm)). apply seq_NoDup. }
  assert (Hparts : Permutation
                     (select rows (test_indices shuffle n_test n)
                        ++ select rows (train_indices shuffle n_test n)) rows).
  { rewrite <- select_app, split_indices by assumption.
    rewrite <- (select_all rows) at 2. fold n.
    unfold select. apply Permutation_flat_map. exact Hperm. }
  pose proof (train_test_split_result shuffle n_test A rows Hperm Hle)
    as Hres. fold n in Hres.
  split; [exact Hnd|]. split; [|split; [exact Hparts|split; [exact Hres|]]].
  - apply NoDup_app_disjoint. exact Hnd.
  - intros test train Hok. rewrite Hres in Hok.
    destruct ((0 <? n)%nat && (n_test n =? n)%nat); [discriminate|].
    injection Hok as <- <-. exact Hparts.
Qed.

Lemma split_partitions_rows_witness :
  NoDup ([2%nat] ++ [0%nat; 1%nat])
  /\ (forall i, In i [2%nat] -> ~ In i [0%nat; 1%nat])
  /\ Permutation ([30] ++ [10; 20]) [10; 20; 30]
  /\ train_test_split (fun _ => [2%nat; 0%nat; 1%nat]) (fun _ => 1%nat)
       [10; 20; 30]
     = Ok ([30], [10; 20])
  /\ (forall test train,
        train_test_split (fun _ => [2%nat; 0%nat; 1%nat]) (fun _ => 1%nat)
          [10; 20; 30]
        = Ok (test, train) ->
        Permutation (test ++ train) [10; 20; 30]).
Proof.
  apply (split_partitions_rows
           (fun _ => [2%nat; 0%nat; 1%nat]) (fun _ => 1%nat) Z [10; 20; 30]).
  - simpl. apply (Permutation_cons_app [0%nat; 1%nat] [] 2%nat).
    apply Permutation_refl.
  - simpl. lia.
Defined.

(** C7, as stated, fails: two snippets with the same text give two equal
    token sequences; whichever of the two orders the shuffle draws, one
    goes to the test part and one to the train part, and [block] packs both
    into the same block. *)
Lemma split_blocks_can_coincide :
  let functions := ["def f(): pass"; "def f(): pass"]%string in
  let n_test := fun _ : nat => 1%nat in
  (exists tb trb,
      test_data_blocks toy (fun _ => [0%nat; 1%nat]) n_test functions = Ok tb
      /\ train_data_blocks toy (fun _ => [0%nat; 1%nat]) n_test functions = Ok trb
      /\ ~ no_common_block tb trb)
  /\ (exists tb trb,
      test_data_blocks toy (fun _ => [1%nat; 0%nat]) n_test functions = Ok tb
      /\ train_data_blocks toy (fun _ => [1%nat; 0%nat]) n_test functions = Ok trb
      /\ ~ no_common_block tb trb).
Proof.
  split; eexists; eexists; (split; [vm_compute; reflexivity|]);
    (split; [vm_compute; reflexivity|]);
    intros Hno; apply (Hno _ (or_introl eq_refl)); left; reflexivity.
Qed.

(** ** The launch script *)

Module LaunchFacts.

Import Launch.
Import String.
Local Open Scope string_scope.

Lemma int64_small (z : Z) : - 2 ^ 63 <= z < 2 ^ 63 -> int64 z = z.
Proof.
  intros H. unfold int64. rewrite Z.mod_small by lia. lia.
Qed.

Lemma uint_beq_refl (d : Decimal.uint) : Decimal.uint_beq d d = true.
Proof. now apply Decimal.internal_uint_dec_lb. Qed.

Lemma to_uint_canonical (g : N) :
  Decimal.unorm (N.to_uint g) = N.to_uint g.
Proof.
  rewrite <- DecimalN.Unsigned.to_of.
  now rewrite DecimalN.Unsigned.of_to.
Qed.

(** The decimal text of a number reads back as that number. *)
Lemma constant_decimal (g : N) :
  constant (decimal g) = Some (int64 (Z.of_N g)).
Proof.
  unfold constant, decimal. rewrite DecimalString.NilEmpty.usu.
  rewrite to_uint_canonical, uint_beq_refl.
  now rewrite DecimalN.Unsigned.of_to.
Qed.

(** With one or two arguments the group is the first argument; when its
    text is a decimal constant of value [v], the script exports: *)
Lemma run_one_or_two (g : string) (rest : list string) (v : Z) :
  (List.length rest <= 1)%nat -> constant g = Some v ->
  exists e,
    run (g :: rest) = Some e
    /\ AI_GROUP e = g
    /\ AI_LOGIN e = match rest with
                    | [] => "set_notebook_password"
                    | login :: _ => login
                    end
    /\ AI_GPU e = arith_rem v 4
    /\ AI_PORT e = arith_add 8000 v
    /\ AI_CONTAINER_NAME e = "ai4se-" ++ g
    /\ AI_CACHE_DIR e = "/var/opt/huggingface".
Proof.
  intros Hlen Hv. destruct rest as [|login [|x rest]].
  - unfold run.
    cbv beta iota zeta delta [List.length Nat.eqb positional nth Nat.sub].
    rewrite Hv. eexists. repeat split.
  - unfold run.
    cbv beta iota zeta delta [List.length Nat.eqb positional nth Nat.sub].
    rewrite Hv. eexists. repeat split.
  - simpl in Hlen. lia.
Qed.

End LaunchFacts.

(** C8, as the script has it: when the group number [g], written in decimal,
    is the first of exactly one or two arguments (and [8000 + g] fits a
    64-bit signed integer), the script sets the GPU index to [g mod 4], the
    host port to [8000 + g] and the container name to [ai4se-g]. *)
Theorem run_group_number (g : N) (rest : list String.string) :
  (List.length rest <= 1)%nat -> 8000 + Z.of_N g < 2 ^ 63 ->
  exists e,
    Launch.run (Launch.decimal g :: rest) = Some e
    /\ Launch.AI_GROUP e = Launch.decimal g
    /\ Launch.AI_GPU e = Z.of_N g mod 4
    /\ Launch.AI_PORT e = 8000 + Z.of_N g
    /\ Launch.AI_CONTAINER_NAME e
       = String.append "ai4se-" (Launch.decimal g).
Proof.
  intros Hlen Hfit.
  destruct (LaunchFacts.run_one_or_two (Launch.decimal g) rest _ Hlen
              (LaunchFacts.constant_decimal g))
    as [e [Hrun [Hgroup [_ [Hgpu [Hport [Hname _]]]]]]].
  exists e.
  rewrite LaunchFacts.int64_small in Hgpu, Hport by lia.
  unfold Launch.arith_rem in Hgpu. unfold Launch.arith_add in Hport.
  assert (Hrem : Z.rem (Z.of_N g) 4 = Z.of_N g mod 4)
    by (apply Z.rem_mod_nonneg; lia).
  pose proof (Z.mod_pos_bound (Z.of_N g) 4 ltac:(lia)) as Hbound.
  rewrite Hrem, LaunchFacts.int64_small in Hgpu by lia.
  rewrite LaunchFacts.int64_small in Hport by lia.
  repeat split; assumption.
Qed.

Lemma run_group_number_witness :
  exists e,
    Launch.run ["6"; "secret"]%string = Some e
    /\ Launch.AI_GROUP e = "6"%string
    /\ Launch.AI_GPU e = 6 mod 4
    /\ Launch.AI_PORT e = 8000 + 6
    /\ Launch.AI_CONTAINER_NAME e = "ai4se-6"%string.
Proof.
  apply (run_group_number 6 ["secret"%string]).
  - simpl. lia.
  - reflexivity.
Defined.

(** C8, as stated, fails: with three arguments neither guard of the script
    holds, the first argument is not looked at, and the defaults of group 1
    are used. *)
Lemma run_three_arguments_keep_defaults :
  exists e,
    Launch.run ["6"; "secret"; "extra"]%string = Some e
    /\ Launch.AI_GROUP e = "1"%string
    /\ Launch.AI_GPU e = 1 /\ Launch.AI_GPU e <> 6 mod 4
    /\ Launch.AI_PORT e = 8001 /\ Launch.AI_PORT e <> 8000 + 6
    /\ Launch.AI_CONTAINER_NAME e = "ai4se-1"%string
    /\ Launch.AI_CONTAINER_NAME e <> "ai4se-6"%string.
Proof.
  eexists. split; [vm_compute; reflexivity|].
  vm_compute. repeat split; discriminate.
Qed.

(** C10: without arguments the script goes on with group ["1"] and login
    token ["set_notebook_password"] (GPU 1, port 8001, container
    [ai4se-1]); with exactly one argument, a group number written in
    decimal, the group is that argument and the login token stays the
    default. *)
Theorem run_defaults :
  Launch.run []
  = Some {| Launch.AI_GROUP := "1";
            Launch.AI_LOGIN := "set_notebook_password";
            Launch.AI_GPU := 1;
            Launch.AI_PORT := 8001;
            Launch.AI_CONTAINER_NAME := "ai4se-1";
            Launch.AI_CACHE_DIR := "/var/opt/huggingface" |}%string
  /\ forall g : N,
       exists e,
         Launch.run [Launch.decimal g] = Some e
         /\ Launch.AI_GROUP e = Launch.decimal g
         /\ Launch.AI_LOGIN e = "set_notebook_password"%string
         /\ Launch.AI_CONTAINER_NAME e
            = String.append "ai4se-" (Launch.decimal g)
         /\ Launch.AI_CACHE_DIR e = "/var/opt/huggingface"%string.
Proof.
  split.
  - vm_compute. reflexivity.
  - intros g.
    destruct (LaunchFacts.run_one_or_two (Launch.decimal g) [] _
                (Nat.le_0_l 1) (LaunchFacts.constant_decimal g))
      as [e [Hrun [Hgroup [Hlogin [_ [_ [Hname Hcache]]]]]]].
    exists e. repeat split; assumption.
Qed.

(** * Further properties of [block] *)

Lemma len_concat_uniform (ls : list (list Z)) (bs : Z) :
  Forall (fun b => len b = bs) ls -> len (concat ls) = len ls * bs.
Proof.
  induction 1 as [|b ls Hb _ IH].
  - reflexivity.
  - change (concat (b :: ls)) with (b ++ concat ls).
    rewrite len_app, IH, Hb. unfold len. simpl List.length.
    rewrite Nat2Z.inj_succ. ring.
Qed.

Lemma pad_count (n bs : Z) :
  0 < bs ->
  (if n mod bs =? 0 then 0 else bs - n mod bs) = (- n) mod bs.
Proof.
  intros Hbs. destruct (Z.eqb_spec (n mod bs) 0) as [Hr|Hr].
  - symmetry. apply Z_mod_zero_opp_full. exact Hr.
  - symmetry. apply Z_mod_nz_opp_full. exact Hr.
Qed.

Lemma ceil_div (n bs : Z) :
  0 < bs -> 0 <= n ->
  n / bs + (if n mod bs =? 0 then 0 else 1) = (n + bs - 1) / bs.
Proof.
  intros Hbs Hn.
  pose proof (Z.div_mod n bs ltac:(lia)) as Hdm.
  pose proof (Z.mod_pos_bound n bs Hbs) as Hb.
  set (q := n / bs) in *. set (r := n mod bs) in *.
  replace (n + bs - 1) with (q * bs + (r + bs - 1)) by lia.
  rewrite Z.div_add_l by lia.
  destruct (Z.eqb_spec r 0) as [Hr|Hr].
  - rewrite Hr. rewrite Z.div_small by lia. lia.
  - replace (r + bs - 1) with (1 * bs + (r - 1)) by lia.
    rewrite Z.div_add_l by lia. rewrite Z.div_small by lia. lia.
Qed.

(** X1: for a positive block size the number of emitted blocks is the
    concatenated length divided by the block size, rounded up. *)
Theorem block_count
  (tok : tokenizer) (data : batch) (bs : Z) (out : batch) :
  0 < bs -> block tok data bs = Ok out ->
  len (input_ids out) = (total_length data + bs - 1) / bs.
Proof.
  intros Hbs Hrun.
  destruct (block_ok_inv tok data bs out Hbs Hrun) as [_ ->].
  simpl. rewrite len_padded_blocks by assumption.
  apply ceil_div; [assumption|apply len_nonneg].
Qed.

Lemma block_count_witness :
  len [[1;2];[3;4];[5;0]] = (5 + 2 - 1) / 2.
Proof.
  apply (block_count toy
           {| input_ids := [[1;2;3];[4;5]]; labels := [] |} 2
           {| input_ids := [[1;2];[3;4];[5;0]];
              labels := [[1;2];[3;4];[5;0]] |}).
  - lia.
  - reflexivity.
Defined.

(** X2: for a positive block size the emitted blocks, joined in order, are
    the joined input followed by exactly [(- total_length) mod block_size]
    copies of the end-of-sequence id, fewer than one block of padding; the
    output holds [block_size] tokens per block. *)
Theorem block_padded_stream
  (tok : tokenizer) (data : batch) (bs : Z) (out : batch) :
  0 < bs -> block tok data bs = Ok out ->
  concat (input_ids out)
  = concat (input_ids data)
      ++ repeat (eos_token_id tok) (Z.to_nat ((- total_length data) mod bs))
  /\ 0 <= (- total_length data) mod bs < bs
  /\ len (concat (input_ids out)) = len (input_ids out) * bs.
Proof.
  intros Hbs Hrun.
  destruct (block_ok_inv tok data bs out Hbs Hrun) as [_ ->].
  simpl. split; [|split].
  - rewrite concat_padded_blocks by assumption.
    rewrite <- concatenated_concat. f_equal.
    rewrite <- pad_count by assumption. fold (total_length data).
    destruct (total_length data mod bs =? 0); reflexivity.
  - apply Z.mod_pos_bound. exact Hbs.
  - apply len_concat_uniform. apply padded_blocks_uniform. exact Hbs.
Qed.

Lemma block_padded_stream_witness :
  concat [[1;2;3];[4;5;6];[7;0;0]]
  = concat [[1;2;3;4];[5;6;7]] ++ repeat 0 (Z.to_nat ((- 7) mod 3))
  /\ 0 <= (- 7) mod 3 < 3
  /\ len (concat [[1;2;3];[4;5;6];[7;0;0]]) = len [[1;2;3];[4;5;6];[7;0;0]] * 3.
Proof.
  apply (block_padded_stream toy
           {| input_ids := [[1;2;3;4];[5;6;7]]; labels := [] |} 3
           {| input_ids := [[1;2;3];[4;5;6];[7;0;0]];
              labels := [[1;2;3];[4;5;6];[7;0;0]] |}).
  - lia.
  - reflexivity.
Defined.

(** X3: a stream shorter than the block size gives exactly one block: the
    whole stream followed by the padding. *)
Theorem block_short_stream (tok : tokenizer) (data : batch) (bs : Z) :
  0 < total_length data < bs ->
  let ids := [concat (input_ids data)
                ++ repeat (eos_token_id tok)
                          (Z.to_nat (bs - total_length data))] in
  block tok data bs = Ok {| input_ids := ids; labels := ids |}.
Proof.
  intros [Hpos Hlt] ids. rewrite block_total by lia.
  destruct (Z.ltb_spec 0 (total_length data)); [|lia].
  unfold packed, padded_blocks, full_blocks, trailing.
  fold (total_length data).
  rewrite Z.div_small, Z.mod_small by lia.
  destruct (Z.eqb_spec (total_length data) 0); [lia|].
  simpl. rewrite concatenated_concat. reflexivity.
Qed.

Lemma block_short_stream_witness :
  block toy {| input_ids := [[1];[2;3]]; labels := [] |} 5
  = Ok {| input_ids := [[1;2;3;0;0]]; labels := [[1;2;3;0;0]] |}.
Proof.
  apply (block_short_stream toy {| input_ids := [[1];[2;3]]; labels := [] |} 5).
  split; reflexivity.
Defined.

(** ** Block sizes that are not positive *)

Lemma block_negative_not_multiple (tok : tokenizer) (data : batch) (bs : Z) :
  bs < 0 -> total_length data mod bs <> 0 ->
  block tok data bs = Ok {| input_ids := [[]]; labels := [[]] |}.
Proof.
  intros Hbs Hr. unfold block. fold (concatenated data).
  fold (total_length data).
  pose proof (len_nonneg (concatenated data)) as Hc.
  fold (total_length data) in Hc.
  pose proof (Z.div_mod (total_length data) bs ltac:(lia)) as Hdm.
  pose proof (Z.mod_neg_bound (total_length data) bs Hbs) as Hb.
  unfold floordiv, mod_. destruct (Z.eqb_spec bs 0) as [|_]; [lia|].
  simpl Py.bind.
  set (q := total_length data / bs) in *.
  set (r := total_length data mod bs) in *.
  unfold range. destruct (Z.eqb_spec bs 0) as [|_]; [lia|].
  unfold range_length.
  destruct (Z.ltb_spec 0 bs); [lia|].
  destruct (Z.ltb_spec (q * bs) 0); [lia|].
  simpl Py.bind.
  destruct (Z.eqb_spec (bs - r) bs); [lia|]. simpl negb. cbv iota.
  unfold slice_from, adjust_index.
  destruct (Z.ltb_spec (q * bs) 0); [lia|].
  rewrite Z.min_r by (fold (total_length data); lia).
  assert (Hskip : skipn (Z.to_nat (len (concatenated data))) (concatenated data)
                  = []).
  { unfold len. rewrite Nat2Z.id. apply skipn_all. }
  rewrite Hskip. unfold mul. replace (Z.to_nat (bs - r)) with O by lia.
  reflexivity.
Qed.

(** X4: a block size that is not positive never yields a token.  Size 0
    raises the division error; a negative size raises the assertion error
    when it divides the concatenated length and otherwise returns a single
    empty block. *)
Theorem block_nonpositive_size (tok : tokenizer) (data : batch) (bs : Z) :
  bs <= 0 ->
  block tok data bs
  = if bs =? 0 then Raise ZeroDivisionError
    else if total_length data mod bs =? 0 then Raise AssertionError
         else Ok {| input_ids := [[]]; labels := [[]] |}.
Proof.
  intros Hbs. destruct (Z.eqb_spec bs 0) as [->|Hne].
  - apply block_zero_size.
  - destruct (Z.eqb_spec (total_length data mod bs) 0) as [Hr|Hr].
    + apply block_negative_multiple; [lia|].
      apply Z.mod_divide; [lia|exact Hr].
    + apply block_negative_not_multiple; [lia|exact Hr].
Qed.

Lemma block_nonpositive_size_witness :
  block toy {| input_ids := [[1;2;3];[4;5]]; labels := [] |} (-2)
  = Ok {| input_ids := [[]]; labels := [[]] |}
  /\ block toy {| input_ids := [[1;2;3];[4]]; labels := [] |} (-2)
     = Raise AssertionError.
Proof.
  split.
  - apply (block_nonpositive_size toy
             {| input_ids := [[1;2;3];[4;5]]; labels := [] |} (-2)). lia.
  - apply (block_nonpositive_size toy
             {| input_ids := [[1;2;3];[4]]; labels := [] |} (-2)). lia.
Defined.

(** ** What [block] reads of its input *)

(** X5: [block] depends on its batch only through the concatenation of the
    [input_ids] column: how the tokens are grouped into sequences, and what
    the [labels] column holds, make no difference, for any block size. *)
Theorem block_reads_stream_only
  (tok : tokenizer) (d1 d2 : batch) (bs : Z) :
  concat (input_ids d1) = concat (input_ids d2) ->
  block tok d1 bs = block tok d2 bs.
Proof.
  intros Hcat. unfold block.
  assert (Hsum : Py.sum (input_ids d1) [] = Py.sum (input_ids d2) []).
  { rewrite !sum_app. simpl. exact Hcat. }
  rewrite Hsum. reflexivity.
Qed.

Lemma block_reads_stream_only_witness :
  block toy {| input_ids := [[1;2;3];[4;5]]; labels := [[9]] |} 2
  = block toy {| input_ids := [[1];[];[2;3;4;5]]; labels := [] |} 2.
Proof.
  apply (block_reads_stream_only toy
           {| input_ids := [[1;2;3];[4;5]]; labels := [[9]] |}
           {| input_ids := [[1];[];[2;3;4;5]]; labels := [] |} 2).
  reflexivity.
Defined.

(** ** Windows of a stream made of equal-sized pieces *)

Section Windows.

Variable b : nat.
Hypothesis b_pos : (0 < b)%nat.

Lemma window_after_piece (x rest : list Z) (k : nat) :
  List.length x = b ->
  firstn b (skipn (S k * b) (x ++ rest)) = firstn b (skipn (k * b) rest).
Proof.
  intros Hx. rewrite skipn_app, skipn_all2 by (simpl; lia).
  rewrite Hx. simpl app. f_equal. f_equal. simpl. lia.
Qed.

Lemma windows_concat (ls : list (list Z)) :
  Forall (fun x => List.length x = b) ls ->
  map (fun k => firstn b (skipn (k * b) (concat ls))) (seq 0 (List.length ls))
  = ls.
Proof.
  induction 1 as [|x ls Hx _ IH].
  - reflexivity.
  - change (concat (x :: ls)) with (x ++ concat ls).
    change (List.length (x :: ls)) with (S (List.length ls)).
    change (seq 0 (S (List.length ls))) with (0%nat :: seq 1 (List.length ls)).
    rewrite <- seq_shift, map_cons, map_map. f_equal.
    + change (0 * b)%nat with 0%nat. change (skipn 0 (x ++ concat ls)) with (x ++ concat ls).
      rewrite firstn_app, Hx, Nat.sub_diag, firstn_O, app_nil_r.
      apply firstn_all2. lia.
    + rewrite <- IH at 2. apply map_ext. intros k.
      apply window_after_piece. exact Hx.
Qed.

Lemma nth_concat_uniform (ls : list (list Z)) (i : nat) (d : Z) :
  Forall (fun x => List.length x = b) ls ->
  nth i (concat ls) d = nth (i mod b) (nth (i / b) ls []) d.
Proof.
  intros Hall. revert i. induction Hall as [|x ls Hx _ IH]; intros i.
  - simpl. destruct (i / b)%nat, (i mod b)%nat, i; reflexivity.
  - change (concat (x :: ls)) with (x ++ concat ls).
    destruct (Nat.lt_ge_cases i b) as [Hlt|Hge].
    + rewrite app_nth1 by lia.
      rewrite Nat.div_small, Nat.mod_small by lia. reflexivity.
    + rewrite app_nth2 by lia. rewrite Hx, IH.
      replace i with (1 * b + (i - b))%nat at 3 4 by lia.
      rewrite Nat.div_add_l by lia.
      replace (1 * b + (i - b))%nat with ((i - b) + 1 * b)%nat by lia.
      rewrite Nat.Div0.mod_add. reflexivity.
Qed.

Lemma firstn_seq (n s m : nat) : firstn n (seq s m) = seq s (Nat.min n m).
Proof.
  revert s m. induction n as [|n IH]; intros s m.
  - reflexivity.
  - destruct m as [|m]; simpl.
    + reflexivity.
    + now rewrite IH.
Qed.

Lemma window_of_prefix (c extra : list Z) (k : nat) :
  (S k * b <= List.length c)%nat ->
  firstn b (skipn (k * b) (c ++ extra)) = firstn b (skipn (k * b) c).
Proof.
  intros Hk. rewrite skipn_app.
  replace (k * b - List.length c)%nat with 0%nat by (simpl in Hk; lia).
  change (skipn 0 extra) with extra.
  rewrite firstn_app.
  replace (b - List.length (skipn (k * b) c))%nat with 0%nat
    by (rewrite length_skipn; simpl in Hk; lia).
  rewrite firstn_O. apply app_nil_r.
Qed.

End Windows.

Lemma uniform_nat (ls : list (list Z)) (bs : Z) :
  Forall (fun x => len x = bs) ls ->
  Forall (fun x => List.length x = Z.to_nat bs) ls.
Proof.
  intros H. eapply Forall_impl; [|exact H].
  intros x Hx. simpl in Hx. unfold len in Hx. lia.
Qed.

Lemma full_blocks_concat_uniform (ls : list (list Z)) (bs : Z) :
  0 < bs -> Forall (fun x => len x = bs) ls ->
  full_blocks (concat ls) bs = ls.
Proof.
  intros Hbs Hall. unfold full_blocks.
  rewrite (len_concat_uniform ls bs Hall), Z.div_mul by lia.
  unfold len. rewrite Nat2Z.id.
  apply windows_concat; [lia|]. apply uniform_nat. exact Hall.
Qed.

(** X6: packing is idempotent: handing [block] its own result, with the
    same positive block size, gives that result back unchanged. *)
Theorem block_idempotent
  (tok : tokenizer) (data : batch) (bs : Z) (out : batch) :
  0 < bs -> block tok data bs = Ok out -> block tok out bs = Ok out.
Proof.
  intros Hbs Hrun.
  destruct (block_ok_inv tok data bs out Hbs Hrun) as [Hlen ->].
  set (ls := padded_blocks (eos_token_id tok) (concatenated data) bs).
  assert (Hall : Forall (fun x => len x = bs) ls)
    by (apply padded_blocks_uniform; exact Hbs).
  assert (Hne : 0 < len ls).
  { pose proof (padded_blocks_nonempty (eos_token_id tok)
                  (concatenated data) bs Hbs) as H.
    fold ls in H. fold (total_length data) in H.
    destruct (Z.ltb_spec 0 (len ls)); [assumption|].
    destruct (Z.ltb_spec 0 (total_length data)); [discriminate|lia]. }
  unfold packed. fold ls.
  assert (Hc : concatenated {| input_ids := ls; labels := ls |} = concat ls)
    by apply concatenated_concat.
  rewrite block_total by assumption. unfold total_length, packed.
  rewrite Hc, (len_concat_uniform ls bs Hall).
  destruct (Z.ltb_spec 0 (len ls * bs)); [|nia].
  unfold padded_blocks.
  rewrite (len_concat_uniform ls bs Hall), Z.mod_mul by lia.
  rewrite full_blocks_concat_uniform by assumption.
  simpl. rewrite app_nil_r. reflexivity.
Qed.

Lemma block_idempotent_witness :
  block toy {| input_ids := [[1;2];[3;4];[5;0]];
               labels := [[1;2];[3;4];[5;0]] |} 2
  = Ok {| input_ids := [[1;2];[3;4];[5;0]]; labels := [[1;2];[3;4];[5;0]] |}.
Proof.
  apply (block_idempotent toy
           {| input_ids := [[1;2;3];[4;5]]; labels := [] |} 2).
  - lia.
  - reflexivity.
Defined.

(** X7: where each token ends up.  For a positive block size, the token at
    position [i] of the joined input is the token at offset
    [i mod block_size] of block number [i / block_size]; every later
    position of the output holds the end-of-sequence id. *)
Theorem block_token_position
  (tok : tokenizer) (data : batch) (bs : Z) (out : batch) (i : nat) (d : Z) :
  0 < bs -> block tok data bs = Ok out ->
  let b := Z.to_nat bs in
  let stream := concat (input_ids data) in
  let at_i := nth (i mod b) (nth (i / b) (input_ids out) []) d in
  ((i < List.length stream)%nat -> at_i = nth i stream d)
  /\ ((List.length stream <= i < List.length (input_ids out) * b)%nat ->
      at_i = eos_token_id tok).
Proof.
  intros Hbs Hrun b stream at_i.
  destruct (block_ok_inv tok data bs out Hbs Hrun) as [_ ->].
  simpl in at_i.
  set (ls := padded_blocks (eos_token_id tok) (concatenated data) bs) in *.
  assert (Hall : Forall (fun x => len x = bs) ls)
    by (apply padded_blocks_uniform; exact Hbs).
  assert (Hat : at_i = nth i (concat ls) d).
  { subst at_i. symmetry. apply nth_concat_uniform; [subst b; lia|].
    apply uniform_nat. exact Hall. }
  assert (Hcat : concat ls
                 = stream
                     ++ (if len (concatenated data) mod bs =? 0 then []
                         else repeat (eos_token_id tok)
                                (Z.to_nat (bs - len (concatenated data) mod bs)))).
  { subst ls stream. rewrite concat_padded_blocks by exact Hbs.
    now rewrite concatenated_concat. }
  assert (Hsize : List.length (concat ls) = (List.length ls * b)%nat).
  { pose proof (len_concat_uniform ls bs Hall) as H. unfold len in H.
    subst b. nia. }
  split.
  - intros Hi. rewrite Hat, Hcat. apply app_nth1. exact Hi.
  - simpl. fold ls. intros [Hlo Hhi]. rewrite Hat, Hcat.
    rewrite app_nth2 by lia.
    rewrite <- Hsize, Hcat, length_app in Hhi.
    destruct (len (concatenated data) mod bs =? 0).
    + simpl in Hhi. lia.
    + rewrite repeat_length in Hhi. apply nth_repeat_lt. lia.
Qed.

Lemma block_token_position_witness :
  (nth (4 mod 2) (nth (4 / 2) [[1;2];[3;4];[5;0]] []) 9
   = nth 4 [1;2;3;4;5] 9)
  /\ (nth (5 mod 2) (nth (5 / 2) [[1;2];[3;4];[5;0]] []) 9 = 0).
Proof.
  split.
  - refine (proj1 (block_token_position toy
              {| input_ids := [[1;2;3];[4;5]]; labels := [] |} 2
              {| input_ids := [[1;2];[3;4];[5;0]];
                 labels := [[1;2];[3;4];[5;0]] |} 4 9 _ _) _).
    + lia.
    + reflexivity.
    + simpl. lia.
  - refine (proj2 (block_token_position toy
              {| input_ids := [[1;2;3];[4;5]]; labels := [] |} 2
              {| input_ids := [[1;2];[3;4];[5;0]];
                 labels := [[1;2];[3;4];[5;0]] |} 5 9 _ _) _).
    + lia.
    + reflexivity.
    + simpl. lia.
Defined.

(** X8: packing is stable under extension.  When the stream of a second
    batch starts with the stream of a first one, the blocks emitted for the
    second batch start with the full blocks of the first: appending
    sequences never changes a block that is already full. *)
Theorem block_extension_keeps_full_blocks
  (tok : tokenizer) (d1 d2 : batch) (extra : list Z) (bs : Z) (out2 : batch) :
  0 < bs ->
  concat (input_ids d2) = concat (input_ids d1) ++ extra ->
  block tok d2 bs = Ok out2 ->
  firstn (Z.to_nat (total_length d1 / bs)) (input_ids out2)
  = full_blocks (concatenated d1) bs.
Proof.
  intros Hbs Hext Hrun.
  destruct (block_ok_inv tok d2 bs out2 Hbs Hrun) as [_ ->].
  simpl. unfold padded_blocks.
  set (c1 := concatenated d1). set (c2 := concatenated d2).
  assert (Hc : c2 = c1 ++ extra).
  { subst c1 c2. now rewrite !concatenated_concat. }
  change (total_length d1) with (len c1).
  destruct (truncated_le c1 bs Hbs) as [Hq1 Ht1].
  assert (Hle : len c1 / bs <= len c2 / bs).
  { apply Z.div_le_mono; [exact Hbs|].
    rewrite Hc, len_app. pose proof (len_nonneg extra). lia. }
  rewrite firstn_app.
  replace (Z.to_nat (len c1 / bs) - List.length (full_blocks c2 bs))%nat
    with 0%nat.
  2:{ pose proof (len_full_blocks c2 bs Hbs) as H. unfold len at 1 in H. lia. }
  rewrite firstn_O, app_nil_r.
  unfold full_blocks. rewrite firstn_map, firstn_seq.
  rewrite Nat.min_l by lia.
  apply map_ext_in. intros k Hk. apply in_seq in Hk.
  rewrite Hc. apply window_of_prefix; [lia|].
  assert (Hz : Z.of_nat (S k) * bs <= len c1) by nia.
  apply Nat2Z.inj_le. rewrite Nat2Z.inj_mul, Z2Nat.id by lia.
  exact Hz.
Qed.

Lemma block_extension_keeps_full_blocks_witness :
  firstn (Z.to_nat (5 / 2)) [[1;2];[3;4];[5;6];[7;0]]
  = full_blocks [1;2;3;4;5] 2.
Proof.
  apply (block_extension_keeps_full_blocks toy
           {| input_ids := [[1;2;3];[4;5]]; labels := [] |}
           {| input_ids := [[1;2;3];[4;5];[6;7]]; labels := [] |}
           [6;7] 2
           {| input_ids := [[1;2];[3;4];[5;6];[7;0]];
              labels := [[1;2];[3;4];[5;6];[7;0]] |}).
  - lia.
  - reflexivity.
  - reflexivity.
Defined.

(** * Tokenized data through the pipeline *)

Lemma len_snoc {A : Type} (l : list A) (x : A) : len (l ++ [x]) = len l + 1.
Proof. unfold len. rewrite length_app. simpl. lia. Qed.

Lemma len_cons {A : Type} (x : A) (l : list A) : len (x :: l) = len l + 1.
Proof. unfold len. simpl List.length. lia. Qed.

Lemma tokenized_rows_nonempty
  (tok : tokenizer) (functions : list String.string) :
  Forall (fun r => row_input_ids r <> []) (tokenized_data tok functions).
Proof.
  unfold tokenized_data. apply Forall_forall. intros r Hr.
  apply in_map_iff in Hr. destruct Hr as [f [<- _]].
  simpl. intros Hnil. apply app_eq_nil in Hnil. destruct Hnil. discriminate.
Qed.

(** X9: every snippet costs exactly one token more than its encoding: the
    stream [block] sees for tokenized data has the summed length of the
    encodings plus the number of snippets, so it is at least as long as
    there are snippets. *)
Theorem tokenized_total_length
  (tok : tokenizer) (functions : list String.string) :
  total_length (columns_of (tokenized_data tok functions))
  = fold_right Z.add 0 (map (fun f => len (encode tok f)) functions)
    + len functions
  /\ len functions <= total_length (columns_of (tokenized_data tok functions)).
Proof.
  assert (Heq : total_length (columns_of (tokenized_data tok functions))
                = fold_right Z.add 0
                    (map (fun f => len (encode tok f)) functions)
                  + len functions).
  { unfold total_length. rewrite concatenated_concat.
    induction functions as [|f rest IH].
    - reflexivity.
    - change (concat (input_ids (columns_of (tokenized_data tok (f :: rest)))))
        with ((encode tok f ++ [eos_token_id tok])
                ++ concat (input_ids (columns_of (tokenized_data tok rest)))).
      rewrite len_app, len_snoc, IH, len_cons.
      change (fold_right Z.add 0
                (map (fun f0 => len (encode tok f0)) (f :: rest)))
        with (len (encode tok f)
              + fold_right Z.add 0 (map (fun f0 => len (encode tok f0)) rest)).
      lia. }
  split; [exact Heq|]. rewrite Heq.
  assert (Hnn : 0 <= fold_right Z.add 0
                       (map (fun f => len (encode tok f)) functions)).
  { clear Heq. induction functions as [|f rest IH]; simpl; [lia|].
    pose proof (len_nonneg (encode tok f)). lia. }
  lia.
Qed.

Lemma Forall_firstn_skipn {A : Type} (P : A -> Prop) (n : nat) (l : list A) :
  Forall P l -> Forall P (firstn n l) /\ Forall P (skipn n l).
Proof.
  intros H. rewrite <- (firstn_skipn n l) in H.
  apply Forall_app in H. exact H.
Qed.

Lemma batches_nonempty {A : Type} (P : A -> Prop) (fuel size : nat)
  (rows : list A) :
  (0 < size)%nat -> Forall P rows ->
  Forall (fun b => b <> [] /\ Forall P b) (batches fuel size rows).
Proof.
  intros Hsize. revert rows.
  induction fuel as [|fuel IH]; intros rows Hall.
  - destruct rows; constructor.
  - destruct rows as [|x rows]; [constructor|].
    change (batches (S fuel) size (x :: rows))
      with (firstn size (x :: rows)
              :: batches fuel size (skipn size (x :: rows))).
    destruct (Forall_firstn_skipn P size (x :: rows) Hall) as [Hf Hs].
    constructor.
    + split; [|exact Hf]. destruct size; [lia|discriminate].
    + apply IH. exact Hs.
Qed.

Lemma combine_diag {A : Type} (l : list A) :
  combine l l = map (fun x => (x, x)) l.
Proof. induction l as [|x l IH]; simpl; congruence. Qed.

Lemma rows_of_packed (tok : tokenizer) (data : batch) :
  Forall well_formed_block (rows_of (packed tok data default_block_size)).
Proof.
  unfold rows_of, packed. simpl. rewrite combine_diag, map_map. simpl.
  apply Forall_forall. intros r Hr. apply in_map_iff in Hr.
  destruct Hr as [ids [<- Hin]]. split; [|reflexivity]. simpl.
  pose proof (padded_blocks_uniform (eos_token_id tok) (concatenated data)
                default_block_size ltac:(reflexivity)) as Hall.
  rewrite Forall_forall in Hall. apply Hall. exact Hin.
Qed.

Lemma total_length_batch (b : list row) :
  b <> [] -> Forall (fun r => row_input_ids r <> []) b ->
  0 < total_length (columns_of b).
Proof.
  intros Hne Hall. destruct b as [|r b]; [contradiction|].
  inversion Hall as [|r' b' Hr _]; subst.
  unfold total_length. rewrite concatenated_concat. simpl.
  rewrite len_app. pose proof (len_nonneg (concat (map row_input_ids b))).
  destruct (row_input_ids r) as [|t ts]; [contradiction|].
  unfold len at 1. simpl List.length. lia.
Qed.

Lemma block_each_ok (tok : tokenizer) (bs : list (list row)) :
  Forall (fun b => b <> [] /\ Forall (fun r => row_input_ids r <> []) b) bs ->
  exists out, block_each tok bs = Ok out /\ Forall well_formed_block out.
Proof.
  induction 1 as [|b bs [Hne Hall] _ [outs [Houts Hgood]]].
  - exists []. split; [reflexivity|constructor].
  - exists (rows_of (packed tok (columns_of b) default_block_size) ++ outs).
    split.
    + simpl. rewrite block_total by reflexivity.
      pose proof (total_length_batch b Hne Hall) as Hlen.
      destruct (Z.ltb_spec 0 (total_length (columns_of b))); [|lia].
      simpl. rewrite Houts. reflexivity.
    + apply Forall_app. split; [apply rows_of_packed|exact Hgood].
Qed.

Lemma map_block_batched_ok (tok : tokenizer) (rows : list row) :
  Forall (fun r => row_input_ids r <> []) rows ->
  exists out,
    map_block_batched tok rows = Ok out /\ Forall well_formed_block out.
Proof.
  intros Hall. unfold map_block_batched. apply block_each_ok.
  apply batches_nonempty; [unfold default_batch_size; lia|exact Hall].
Qed.

Lemma select_in {A : Type} (rows : list A) (indices : list nat) (r : A) :
  In r (select rows indices) -> In r rows.
Proof.
  unfold select. intros Hin. apply in_flat_map in Hin.
  destruct Hin as [i [_ Hr]].
  destruct (nth_error rows i) as [x|] eqn:Hnth; simpl in Hr.
  - destruct Hr as [<-|[]]. eapply nth_error_In. exact Hnth.
  - contradiction.
Qed.

Lemma train_test_split_keeps
  (shuffle : nat -> list nat) (n_test : nat -> nat)
  (A : Type) (P : A -> Prop) (rows test train : list A) :
  train_test_split shuffle n_test rows = Ok (test, train) ->
  Forall P rows -> Forall P test /\ Forall P train.
Proof.
  unfold train_test_split. intros Hok Hall.
  assert (Hsel : forall idx, Forall P (select rows idx)).
  { intros idx. apply Forall_forall. intros r Hr. apply select_in in Hr.
    rewrite Forall_forall in Hall. apply Hall. exact Hr. }
  destruct (List.length rows =? 0)%nat.
  - injection Hok as <- <-. split; exact Hall.
  - destruct (List.length rows - n_test (List.length rows) =? 0)%nat;
      [discriminate|].
    destruct (in_range _ _ && in_range _ _); [|discriminate].
    injection Hok as <- <-. split; apply Hsel.
Qed.

(** X10: the two blocked datasets of the notebook are well formed whenever
    the split returns.  For every pair of parts the splitter returns on
    tokenized data, mapping [block] over the test part and over the train
    part never raises (the assertion of [block] cannot fire, since every
    tokenized row holds at least the end-of-sequence id), and every row of
    both results is a block of 128 tokens whose labels equal its tokens.
    When the split raises, neither blocked dataset is built; for a shuffle
    that is a permutation this happens exactly when there is at least one
    snippet and the train part would be empty. *)
Theorem blocked_datasets_well_formed
  (tok : tokenizer) (shuffle : nat -> list nat) (n_test : nat -> nat)
  (functions : list String.string) :
  (forall parts,
      split_dataset tok shuffle n_test functions = Ok parts ->
      exists test_blocks train_blocks,
        test_data_blocks tok shuffle n_test functions = Ok test_blocks
        /\ train_data_blocks tok shuffle n_test functions = Ok train_blocks
        /\ Forall well_formed_block test_blocks
        /\ Forall well_formed_block train_blocks)
  /\ (forall e,
        split_dataset tok shuffle n_test functions = Raise e ->
        test_data_blocks tok shuffle n_test functions = Raise e
        /\ train_data_blocks tok shuffle n_test functions = Raise e)
  /\ (let n := List.length functions in
      Permutation (shuffle n) (seq 0 n) -> (n_test n <= n)%nat ->
      split_dataset tok shuffle n_test functions
      = if (0 <? n)%nat && (n_test n =? n)%nat then Raise ValueError
        else Ok (select (tokenized_data tok functions)
                   (test_indices shuffle n_test n),
                 select (tokenized_data tok functions)
                   (train_indices shuffle n_test n))).
Proof.
  split; [|split].
  - intros [test train] Hsplit.
    destruct (train_test_split_keeps shuffle n_test row
                (fun r => row_input_ids r <> [])
                (tokenized_data tok functions) test train Hsplit
                (tokenized_rows_nonempty tok functions))
      as [Htest Htrain].
    destruct (map_block_batched_ok tok test Htest) as [tb [Htb Hgt]].
    destruct (map_block_batched_ok tok train Htrain) as [trb [Htrb Hgtr]].
    exists tb, trb. unfold test_data_blocks, train_data_blocks.
    rewrite Hsplit. simpl Py.bind. repeat split; assumption.
  - intros e Hsplit. unfold test_data_blocks, train_data_blocks.
    rewrite Hsplit. split; reflexivity.
  - intros n Hperm Hle. unfold split_dataset.
    assert (Hn : List.length (tokenized_data tok functions) = n)
      by (unfold tokenized_data; apply length_map).
    pose proof (train_test_split_result shuffle n_test row
                  (tokenized_data tok functions)) as Hres.
    cbv zeta in Hres. rewrite Hn in Hres. apply Hres; assumption.
Qed.

Lemma blocked_datasets_well_formed_witness :
  (exists test_blocks train_blocks,
      test_data_blocks toy (fun _ => [2%nat; 0%nat; 1%nat]) (fun _ => 1%nat)
        ["f"; "g"; "h"]%string = Ok test_blocks
      /\ train_data_blocks toy (fun _ => [2%nat; 0%nat; 1%nat]) (fun _ => 1%nat)
           ["f"; "g"; "h"]%string = Ok train_blocks
      /\ Forall well_formed_block test_blocks
      /\ Forall well_formed_block train_blocks)
  /\ split_dataset toy (fun _ => [0%nat]) (fun _ => 1%nat) ["f"%string]
     = Raise ValueError.
Proof.
  split.
  - apply (proj1 (blocked_datasets_well_formed toy
                    (fun _ => [2%nat; 0%nat; 1%nat]) (fun _ => 1%nat)
                    ["f"; "g"; "h"]%string)
             ([{| row_input_ids := [7; 0]; row_labels := [7; 0] |}],
              [{| row_input_ids := [7; 0]; row_labels := [7; 0] |};
               {| row_input_ids := [7; 0]; row_labels := [7; 0] |}])).
    reflexivity.
  - apply (proj2 (proj2 (blocked_datasets_well_formed toy
                           (fun _ => [0%nat]) (fun _ => 1%nat)
                           ["f"%string]))).
    + simpl. apply Permutation_refl.
    + simpl. lia.
Defined.

(** * Further properties of the launch script *)

Lemma run_decimal (g : N) (rest : list String.string) :
  (List.length rest <= 1)%nat -> 8000 + Z.of_N g < 2 ^ 63 ->
  exists e,
    Launch.run (Launch.decimal g :: rest) = Some e
    /\ Launch.AI_GPU e = Z.of_N g mod 4
    /\ Launch.AI_PORT e = 8000 + Z.of_N g
    /\ Launch.AI_CONTAINER_NAME e
       = String.append "ai4se-" (Launch.decimal g).
Proof.
  intros Hlen Hfit.
  destruct (LaunchFacts.run_one_or_two (Launch.decimal g) rest _ Hlen
              (LaunchFacts.constant_decimal g))
    as [e [Hrun [_ [_ [Hgpu [Hport [Hname _]]]]]]].
  exists e.
  rewrite LaunchFacts.int64_small in Hgpu, Hport by lia.
  unfold Launch.arith_rem in Hgpu. unfold Launch.arith_add in Hport.
  pose proof (Z.mod_pos_bound (Z.of_N g) 4 ltac:(lia)) as Hbound.
  rewrite Z.rem_mod_nonneg, LaunchFacts.int64_small in Hgpu by lia.
  rewrite LaunchFacts.int64_small in Hport by lia.
  repeat split; assumption.
Qed.

Lemma decimal_injective (g h : N) :
  Launch.decimal g = Launch.decimal h -> g = h.
Proof.
  intros Heq. unfold Launch.decimal in Heq.
  apply (f_equal DecimalString.NilEmpty.uint_of_string) in Heq.
  rewrite !DecimalString.NilEmpty.usu in Heq. injection Heq as Heq.
  apply (f_equal N.of_uint) in Heq.
  now rewrite !DecimalN.Unsigned.of_to in Heq.
Qed.

(** X11: the script looks at its arguments only when there are exactly one
    or two of them.  With any other number of arguments (none, or three and
    more) every exported variable has its default value; and after a group
    number written in decimal, a second argument changes nothing but
    [AI_LOGIN], which takes it verbatim. *)
Theorem run_argument_count (args : list String.string) :
  (List.length args <> 1%nat -> List.length args <> 2%nat ->
   Launch.run args = Launch.run [])
  /\ (forall (g : N) (login : String.string),
        args = [Launch.decimal g; login] ->
        exists e,
          Launch.run [Launch.decimal g] = Some e
          /\ Launch.run args
             = Some {| Launch.AI_GROUP := Launch.AI_GROUP e;
                       Launch.AI_LOGIN := login;
                       Launch.AI_GPU := Launch.AI_GPU e;
                       Launch.AI_PORT := Launch.AI_PORT e;
                       Launch.AI_CONTAINER_NAME := Launch.AI_CONTAINER_NAME e;
                       Launch.AI_CACHE_DIR := Launch.AI_CACHE_DIR e |}).
Proof.
  split.
  - intros H1 H2. unfold Launch.run.
    destruct (Nat.eqb_spec (List.length args) 1); [contradiction|].
    destruct (Nat.eqb_spec (List.length args) 2); [contradiction|].
    reflexivity.
  - intros g login ->. unfold Launch.run.
    cbv beta iota zeta delta
      [List.length Nat.eqb Launch.positional nth Nat.sub].
    rewrite LaunchFacts.constant_decimal.
    eexists. split; reflexivity.
Qed.

Lemma run_argument_count_witness :
  Launch.run ["6"; "secret"; "extra"; "more"]%string = Launch.run []
  /\ exists e,
       Launch.run ["6"%string] = Some e
       /\ Launch.run ["6"; "secret"]%string
          = Some {| Launch.AI_GROUP := Launch.AI_GROUP e;
                    Launch.AI_LOGIN := "secret";
                    Launch.AI_GPU := Launch.AI_GPU e;
                    Launch.AI_PORT := Launch.AI_PORT e;
                    Launch.AI_CONTAINER_NAME := Launch.AI_CONTAINER_NAME e;
                    Launch.AI_CACHE_DIR := Launch.AI_CACHE_DIR e |}.
Proof.
  split.
  - apply (proj1 (run_argument_count ["6"; "secret"; "extra"; "more"]%string));
      discriminate.
  - apply (proj2 (run_argument_count ["6"; "secret"]%string) 6%N
             "secret"%string).
    reflexivity.
Defined.

(** X12: groups do not collide on ports or names, only on GPUs.  For two
    group numbers given in decimal (one or two arguments each, within the
    64-bit range): equal host ports or equal container names mean equal
    groups; the GPU index lies in [0 .. 3]; and two groups get the same GPU
    exactly when they are congruent modulo 4. *)
Theorem run_groups_collide_only_on_gpu
  (g h : N) (rest_g rest_h : list String.string) :
  (List.length rest_g <= 1)%nat -> (List.length rest_h <= 1)%nat ->
  8000 + Z.of_N g < 2 ^ 63 -> 8000 + Z.of_N h < 2 ^ 63 ->
  exists eg eh,
    Launch.run (Launch.decimal g :: rest_g) = Some eg
    /\ Launch.run (Launch.decimal h :: rest_h) = Some eh
    /\ (Launch.AI_PORT eg = Launch.AI_PORT eh -> g = h)
    /\ (Launch.AI_CONTAINER_NAME eg = Launch.AI_CONTAINER_NAME eh -> g = h)
    /\ 0 <= Launch.AI_GPU eg < 4
    /\ (Launch.AI_GPU eg = Launch.AI_GPU eh
        <-> Z.of_N g mod 4 = Z.of_N h mod 4).
Proof.
  intros Hlg Hlh Hfg Hfh.
  destruct (run_decimal g rest_g Hlg Hfg)
    as [eg [Hrun_g [Hgpu_g [Hport_g Hname_g]]]].
  destruct (run_decimal h rest_h Hlh Hfh)
    as [eh [Hrun_h [Hgpu_h [Hport_h Hname_h]]]].
  exists eg, eh.
  rewrite Hgpu_g, Hgpu_h, Hport_g, Hport_h, Hname_g, Hname_h.
  split; [exact Hrun_g|]. split; [exact Hrun_h|].
  split; [|split; [|split]].
  - intros Heq. lia.
  - intros Heq. simpl in Heq. injection Heq as Heq.
    apply decimal_injective. exact Heq.
  - apply Z.mod_pos_bound. lia.
  - reflexivity.
Qed.

Lemma run_groups_collide_only_on_gpu_witness :
  exists eg eh,
    Launch.run ["2"]%string = Some eg
    /\ Launch.run ["6"; "secret"]%string = Some eh
    /\ (Launch.AI_PORT eg = Launch.AI_PORT eh -> 2%N = 6%N)
    /\ (Launch.AI_CONTAINER_NAME eg = Launch.AI_CONTAINER_NAME eh -> 2%N = 6%N)
    /\ 0 <= Launch.AI_GPU eg < 4
    /\ (Launch.AI_GPU eg = Launch.AI_GPU eh <-> 2 mod 4 = 6 mod 4).
Proof.
  apply (run_groups_collide_only_on_gpu 2 6 [] ["secret"%string]).
  - simpl. lia.
  - simpl. lia.
  - reflexivity.
  - reflexivity.
Defined.
